(** * neural_testbed: hyperparameter sweeps

  A shallow embedding of the sweep enumerators of
  [neural_testbed/agents/factories/sweeps/testbed/sgmcmc.py] and
  [neural_testbed/leaderboard/sweep.py].

  Python [int] is [Z]; Python [float] is a binary64 primitive float, so a
  literal such as [0.1] denotes the same double as in the source and
  [PrimFloat.eqb] is Python's [==] on floats.  Lists that the source builds
  with [append] in nested [for] loops are built here by the same loops,
  written as folds that thread the mutable locals. *)

From Stdlib Require Import String Ascii ZArith Bool List Lia.
From Stdlib Require Import PrimFloat.
From Stdlib Require Import DecimalString DecimalNat.
Import ListNotations.

Set Warnings "-inexact-float".

Local Open Scope Z_scope.

(** ** Python loops *)

Section Loops.
Context {S A : Type}.

(** [for a in l: body], with the locals the body mutates as the state. *)
Definition for_each (l : list A) (body : A -> S -> S) (st : S) : S :=
  fold_left (fun st a => body a st) l st.

Lemma for_each_nil body st : for_each [] body st = st.
Proof. reflexivity. Qed.

Lemma for_each_cons a l body st :
  for_each (a :: l) body st = for_each l body (body a st).
Proof. reflexivity. Qed.

Lemma for_each_app l1 l2 body st :
  for_each (l1 ++ l2) body st = for_each l2 body (for_each l1 body st).
Proof. unfold for_each. apply fold_left_app. Qed.

(** A property kept by every iteration is kept by the loop. *)
Lemma for_each_inv (P : S -> Prop) l body st :
  (forall a st, In a l -> P st -> P (body a st)) ->
  P st -> P (for_each l body st).
Proof.
  revert st. induction l as [|a l IH]; intros st Hbody Hst; [exact Hst|].
  rewrite for_each_cons. apply IH.
  - intros b st' Hb. apply Hbody. now right.
  - apply Hbody; [now left | exact Hst].
Qed.
End Loops.

(** [range(n)]: empty when [n <= 0]. *)
Definition range (n : Z) : list Z := map Z.of_nat (seq 0 (Z.to_nat n)).

(** [enumerate(l)] *)
Definition enumerate {A : Type} (l : list A) : list (nat * A) :=
  combine (seq 0 (length l)) l.

(** [str(i)] for a non-negative [int]: decimal digits, no leading zero. *)
Definition str (i : nat) : string := NilEmpty.string_of_uint (Nat.to_uint i).

(** ** Python dictionaries

    A [dict] keeps its items in insertion order, and [values()] and [keys()]
    follow that order, so a dictionary is the list of its items.  Assigning
    to a key already present replaces the value in place. *)

Section Dict.
Context {V : Type}.

Definition dict : Type := list (string * V).

Definition keys (d : dict) : list string := map fst d.
Definition values (d : dict) : list V := map snd d.

Fixpoint dict_get (k : string) (d : dict) : option V :=
  match d with
  | [] => None
  | (k', v) :: d' => if String.eqb k k' then Some v else dict_get k d'
  end.

(** [k in d] *)
Definition dict_mem (k : string) (d : dict) : bool :=
  existsb (String.eqb k) (keys d).

(** [d[k] = v] *)
Fixpoint dict_set (k : string) (v : V) (d : dict) : dict :=
  match d with
  | [] => [(k, v)]
  | (k', v') :: d' =>
      if String.eqb k k' then (k', v) :: d' else (k', v') :: dict_set k v d'
  end.

(** [d.update(other)] *)
Definition dict_update (d other : dict) : dict :=
  for_each other (fun kv d => dict_set (fst kv) (snd kv) d) d.

(** [{key(i): f(v) for i, v in enumerate(l)}] *)
Definition dict_comprehension (key : nat -> string) (f : V -> V) (l : list V)
  : dict :=
  for_each (enumerate l) (fun iv d => dict_set (key (fst iv)) (f (snd iv)) d)
    [].

(** What every Python dictionary satisfies: no key occurs twice. *)
Definition dict_wf (d : dict) : Prop := NoDup (keys d).

End Dict.
Arguments dict V : clear implicits.

(** ** SGMCMC agent sweep ([sweeps/testbed/sgmcmc.py]) *)

Module Sgmcmc.

(** The keyword arguments a call site passes to [sgmcmc.SGMCMCConfig]; the
    dataclass itself lives outside the modelled files, so an argument the
    call leaves out is [None] here and keeps the dataclass default.  The
    integer literals among the floats ([1], [2], [10]) are written as the
    floats of the same value. *)
Record SGMCMCConfig := mkSGMCMCConfig {
  learning_rate : float;
  prior_variance : float;
  adaptive_prior_variance : bool;
  alg_temperature : option float;
  momentum_decay : option float
}.

Definition sgld_sweep : list SGMCMCConfig :=
  for_each [5e-4; 1e-3; 5e-3]%float (fun learning_rate =>
    for_each [0.05; 0.1; 0.5; 1; 2; 10]%float (fun prior_variance sweep =>
      sweep ++ [mkSGMCMCConfig learning_rate prior_variance true None None]))
    [].

Definition momentum_sgld_sweep : list SGMCMCConfig :=
  for_each [5e-4; 1e-3; 5e-3]%float (fun learning_rate =>
    for_each [0.05; 0.1; 0.5; 1; 2; 10]%float (fun prior_variance sweep =>
      sweep ++ [mkSGMCMCConfig learning_rate prior_variance true
                  (Some 1%float) (Some 0.9%float)]))
    [].

Definition combined_sweep : list SGMCMCConfig :=
  sgld_sweep ++ momentum_sgld_sweep.

End Sgmcmc.

(** ** Leaderboard sweep ([leaderboard/sweep.py]) *)

Definition SEPARATOR : string := "/".

(** [f'{sweep_name}{SEPARATOR}{i}'] *)
Definition problem_id (sweep_name : string) (i : nat) : string :=
  (sweep_name ++ SEPARATOR ++ str i)%string.

(** The [generative] samplers a config can name as [test_distribution].
    Python compares functions by identity, so two of them are equal exactly
    when they are the same function. *)
Inductive TestDistCtor : Set :=
| make_gaussian_sampler
| make_polyadic_sampler.

(** A logit constructor is an opaque callable, known by its identity. *)
Inductive LogitCtor : Set :=
| LogitCtorId (id : nat).

(** The keyword arguments the sweeps pass to [base.PriorKnowledge].  The
    dataclass is declared outside the modelled files; [noise_std] and
    [temperature] are not passed by every sweep, and [None] stands for an
    argument left at the dataclass default.  The filters of the test sweeps
    read only a field that the filtered sweep passes, and all configs of one
    sweep leave the same fields out, so the default never has to be known. *)
Record PriorKnowledge := mkPriorKnowledge {
  input_dim : Z;
  num_train : Z;
  num_classes : Z;
  tau : Z;
  layers : Z;
  noise_std : option float;
  temperature : option float
}.

Record ProblemConfig := mkProblemConfig {
  prior_knowledge : PriorKnowledge;
  seed : Z;
  logit_ctor : option LogitCtor;
  test_distribution : TestDistCtor;
  num_test_seeds : Z;
  num_enn_samples : Z;
  num_test_cache : Z;
  epistemic_only : bool
}.

(** [ProblemConfig(prior_knowledge, seed)] with every other field at its
    declared default. *)
Definition ProblemConfig_init (prior_knowledge : PriorKnowledge) (seed : Z)
  : ProblemConfig :=
  mkProblemConfig prior_knowledge seed None make_gaussian_sampler
    1000 1000 1000 false.

Definition with_num_enn_samples (n : Z) (c : ProblemConfig) : ProblemConfig :=
  mkProblemConfig (prior_knowledge c) (seed c) (logit_ctor c)
    (test_distribution c) (num_test_seeds c) n (num_test_cache c)
    (epistemic_only c).

Definition with_test_distribution (t : TestDistCtor) (c : ProblemConfig)
  : ProblemConfig :=
  mkProblemConfig (prior_knowledge c) (seed c) (logit_ctor c)
    t (num_test_seeds c) (num_enn_samples c) (num_test_cache c)
    (epistemic_only c).

(** [dataclasses.replace(c, epistemic_only=b)] *)
Definition replace_epistemic_only (b : bool) (c : ProblemConfig)
  : ProblemConfig :=
  mkProblemConfig (prior_knowledge c) (seed c) (logit_ctor c)
    (test_distribution c) (num_test_seeds c) (num_enn_samples c)
    (num_test_cache c) b.

(** *** Equality of configs

    A frozen dataclass compares (and hashes) as the tuple of its fields, and
    membership in a [set] is equality with one of its members.  Both tests
    look at the identity of the two objects before they call [==], which
    only matters for a float that is NaN, the one value that [==] tells apart
    from itself.  The functions below compare the values, as [==] does; the
    configs on which this is all that Python does are the [nan_free] ones,
    and the statements about arbitrary lists of configs are made for
    those. *)

Definition option_eqb {A : Type} (eqb : A -> A -> bool) (x y : option A)
  : bool :=
  match x, y with
  | Some a, Some b => eqb a b
  | None, None => true
  | _, _ => false
  end.

Definition TestDistCtor_eqb (a b : TestDistCtor) : bool :=
  match a, b with
  | make_gaussian_sampler, make_gaussian_sampler => true
  | make_polyadic_sampler, make_polyadic_sampler => true
  | _, _ => false
  end.

Definition LogitCtor_eqb (a b : LogitCtor) : bool :=
  match a, b with
  | LogitCtorId i, LogitCtorId j => Nat.eqb i j
  end.

Definition PriorKnowledge_eqb (a b : PriorKnowledge) : bool :=
  (input_dim a =? input_dim b) && (num_train a =? num_train b)
  && (num_classes a =? num_classes b) && (tau a =? tau b)
  && (layers a =? layers b)
  && option_eqb PrimFloat.eqb (noise_std a) (noise_std b)
  && option_eqb PrimFloat.eqb (temperature a) (temperature b).

Definition ProblemConfig_eqb (a b : ProblemConfig) : bool :=
  PriorKnowledge_eqb (prior_knowledge a) (prior_knowledge b)
  && (seed a =? seed b)
  && option_eqb LogitCtor_eqb (logit_ctor a) (logit_ctor b)
  && TestDistCtor_eqb (test_distribution a) (test_distribution b)
  && (num_test_seeds a =? num_test_seeds b)
  && (num_enn_samples a =? num_enn_samples b)
  && (num_test_cache a =? num_test_cache b)
  && Bool.eqb (epistemic_only a) (epistemic_only b).

(** An optional float field that does not hold NaN. *)
Definition is_number (x : option float) : bool :=
  match x with
  | Some f => negb (PrimFloat.is_nan f)
  | None => true
  end.

(** A config none of whose float fields is NaN. *)
Definition nan_free (c : ProblemConfig) : Prop :=
  is_number (noise_std (prior_knowledge c)) = true
  /\ is_number (temperature (prior_knowledge c)) = true.

(** [x == f] for an optional float field [x] and a float [f] *)
Definition float_is (x : option float) (f : float) : bool :=
  option_eqb PrimFloat.eqb x (Some f).

(** *** The sweeps

    The state of the loops is the pair of the locals [seed] and [configs].
    [int(data_ratio * input_dim)] is the product itself, both factors being
    integers.  Where a list of floats holds an integer literal (the [1] of
    [[0.01, 0.1, 1]]), the float of the same value stands for it: Python
    compares and hashes the two alike. *)

Definition LoopState : Type := Z * list ProblemConfig.

(** The loops of [regression_sweep], run from the state [st]. *)
Definition regression_loops (num_seed : Z) (st : LoopState) : LoopState :=
  for_each [1; 10; 100] (fun input_dim =>
    for_each [1; 10; 100] (fun data_ratio =>
      for_each [0.01; 0.1; 1]%float (fun noise_std =>
        for_each (range num_seed) (fun unused_seed_inc st =>
          let seed := fst st + 1 in
          let num_train := data_ratio * input_dim in
          let prior_knowledge :=
            mkPriorKnowledge input_dim num_train 1 1 1
              (Some noise_std) None in
          (seed,
           snd st ++ [with_num_enn_samples 100
                        (ProblemConfig_init prior_knowledge seed)])))))
    st.

Definition regression_sweep (num_seed initial_seed : Z) : dict ProblemConfig :=
  let configs := snd (regression_loops num_seed (initial_seed, [])) in
  dict_comprehension (problem_id "regression") (fun v => v) configs.

(** The loops inside one [tau] iteration of [classification_sweep]. *)
Definition classification_loops (num_seed tau : Z) (st : LoopState)
  : LoopState :=
  for_each [2; 10; 100] (fun input_dim =>
    for_each [1; 10; 100; 1000] (fun data_ratio =>
      for_each [0.01; 0.1; 0.5]%float (fun temperature =>
        for_each (range num_seed) (fun unused_seed_inc st =>
          let seed := fst st + 1 in
          let num_train := data_ratio * input_dim in
          let prior_knowledge :=
            mkPriorKnowledge input_dim num_train 2 tau 2
              None (Some temperature) in
          (seed,
           snd st ++ [with_test_distribution make_polyadic_sampler
                        (ProblemConfig_init prior_knowledge seed)])))))
    st.

(** Each [tau] iteration starts by [seed = initial_seed]; only [configs]
    lives across iterations. *)
Definition classification_sweep (num_seed initial_seed : Z)
  : dict ProblemConfig :=
  let configs :=
    for_each [1; 10] (fun tau configs =>
      snd (classification_loops num_seed tau (initial_seed, configs)))
      [] in
  dict_comprehension (problem_id "classification") (fun v => v) configs.

(** The loops inside one [tau] iteration of [classification_2d_sweep]. *)
Definition classification_2d_loops (num_seed tau : Z) (st : LoopState)
  : LoopState :=
  for_each [1; 3; 10; 30; 100; 300; 1000] (fun num_train =>
    for_each [0.01; 0.1; 0.5]%float (fun temperature =>
      for_each (range num_seed) (fun unused_seed_inc st =>
        let seed := fst st + 1 in
        let prior_knowledge :=
          mkPriorKnowledge 2 num_train 2 tau 2
            None (Some temperature) in
        (seed, snd st ++ [ProblemConfig_init prior_knowledge seed]))))
    st.

Definition classification_2d_sweep (num_seed initial_seed : Z)
  : dict ProblemConfig :=
  let configs :=
    for_each [1; 10] (fun tau configs =>
      snd (classification_2d_loops num_seed tau (initial_seed, configs)))
      [] in
  dict_comprehension (problem_id "classification_2d") (fun v => v) configs.

(** [problem_config in observed_configs], for [nan_free] configs: some
    member equals [problem_config]. *)
Definition set_mem (c : ProblemConfig) (s : list ProblemConfig) : bool :=
  existsb (ProblemConfig_eqb c) s.

(** The loop state is the pair of [observed_configs] and [new_configs]. *)
Definition _filter_unique_configs (configs : list ProblemConfig)
    (filter_fn : ProblemConfig -> bool) : list ProblemConfig :=
  snd (
    for_each configs (fun problem_config st =>
      if filter_fn problem_config then
        if negb (set_mem problem_config (fst st)) then
          (problem_config :: fst st, snd st ++ [problem_config])
        else st
      else st)
      ([], [])).

Definition regression_test_sweep : dict ProblemConfig :=
  let full_configs := values (regression_sweep 1 0) in
  let configs :=
    _filter_unique_configs full_configs (fun x =>
      float_is (noise_std (prior_knowledge x)) 0.1
      && (input_dim (prior_knowledge x) =? 10)
      && (num_train (prior_knowledge x) =? 10)
      && (tau (prior_knowledge x) =? 1)) in
  dict_comprehension (problem_id "regression_test") (fun v => v) configs.

Definition classification_test_sweep : dict ProblemConfig :=
  let full_configs := values (classification_sweep 1 0) in
  let configs :=
    _filter_unique_configs full_configs (fun x =>
      float_is (temperature (prior_knowledge x)) 0.01
      && (tau (prior_knowledge x) =? 1)
      && (input_dim (prior_knowledge x) =? 2)) in
  dict_comprehension (problem_id "classification_test") (fun v => v) configs.

Definition classification_2d_test_sweep : dict ProblemConfig :=
  let full_configs := values (classification_2d_sweep 1 0) in
  let configs :=
    _filter_unique_configs full_configs (fun x =>
      float_is (temperature (prior_knowledge x)) 0.01
      && (tau (prior_knowledge x) =? 1)) in
  dict_comprehension (problem_id "classification_2d_test") (fun v => v)
    configs.

Definition enn_paper_sweep : dict ProblemConfig :=
  let configs := values (regression_sweep 10 0) in
  dict_comprehension (problem_id "enn_paper") (replace_epistemic_only true)
    configs.

Definition enn_paper_test_sweep : dict ProblemConfig :=
  let full_configs := values (regression_sweep 1 0) in
  let configs :=
    _filter_unique_configs full_configs (fun x =>
      float_is (noise_std (prior_knowledge x)) 0.1) in
  dict_comprehension (problem_id "enn_paper_test")
    (replace_epistemic_only true) configs.

Inductive exn : Set :=
| KeyError (msg : string)
| TypeError (msg : string).

(** [set(sweep).intersection(settings)] *)
Definition keys_intersection {V : Type} (sweep settings : dict V)
  : list string :=
  filter (fun k => dict_mem k settings) (keys sweep).

(** The loop of [_merge_without_overwrite], from the [settings] built so
    far.  The set of shared keys is truthy when it is not empty; [raise]
    leaves the loop, and [inl] is the exception raised. *)
Fixpoint merge_from {V : Type} (sweeps : list (dict V)) (settings : dict V)
  : exn + dict V :=
  match sweeps with
  | [] => inr settings
  | sweep :: rest =>
      match keys_intersection sweep settings with
      | _ :: _ => inl (KeyError "Sweeps should not have the same keys!")
      | [] => merge_from rest (dict_update settings sweep)
      end
  end.

Definition _merge_without_overwrite {V : Type} (sweeps : list (dict V))
  : exn + dict V :=
  merge_from sweeps [].

Definition component_sweeps : list (dict ProblemConfig) :=
  [ regression_sweep 10 0;
    regression_test_sweep;
    enn_paper_sweep;
    enn_paper_test_sweep;
    classification_sweep 5 0;
    classification_test_sweep;
    classification_2d_sweep 10 0;
    classification_2d_test_sweep ].

Definition SETTINGS : exn + dict ProblemConfig :=
  _merge_without_overwrite component_sweeps.

(** *** Module-level tuples of problem ids *)

Definition REGRESSION : list string := keys (regression_sweep 10 0).
Definition REGRESSION_TEST : list string := keys regression_test_sweep.
Definition ENN_PAPER : list string := keys enn_paper_sweep.
Definition ENN_PAPER_TEST : list string := keys enn_paper_test_sweep.
Definition CLASSIFICATION_2D : list string :=
  keys (classification_2d_sweep 10 0).
Definition CLASSIFICATION_2D_TEST : list string :=
  keys classification_2d_test_sweep.
Definition CLASSIFICATION : list string := keys (classification_sweep 5 0).
Definition CLASSIFICATION_TEST : list string := keys classification_test_sweep.

(** [c] with [offset] added to its seed. *)
Definition shift_seed (offset : Z) (c : ProblemConfig) : ProblemConfig :=
  mkProblemConfig (prior_knowledge c) (seed c + offset) (logit_ctor c)
    (test_distribution c) (num_test_seeds c) (num_enn_samples c)
    (num_test_cache c) (epistemic_only c).

(** [c in s] for a character and a string *)
Fixpoint has_char (c : ascii) (s : string) : bool :=
  match s with
  | EmptyString => false
  | String c' s' => Ascii.eqb c c' || has_char c s'
  end.

(** A sweep name is a string without the separator. *)
Definition sweep_name_ok (name : string) : Prop :=
  has_char "/"%char name = false.

(** A sweep built by the comprehension of the sweep functions, from its
    name, the function applied to each config and the configs. *)
Definition named_sweep {V : Type} (nfl : string * (V -> V) * list V)
  : dict V :=
  dict_comprehension (problem_id (fst (fst nfl))) (snd (fst nfl)) (snd nfl).

(** *** [ProblemConfig.meta_data] *)

(** The values a config holds, as [dataclasses.asdict] returns them. *)
#[warnings="-register-all"] Inductive PyValue : Type :=
| PyInt (z : Z)
| PyFloat (f : float)
| PyBool (b : bool)
| PyNone
| PyTestDistCtor (t : TestDistCtor)
| PyLogitCtor (l : LogitCtor)
| PyDict (items : list (string * PyValue)).

(** [d.pop(k)]: the value of [k] and [d] without that item, or [None] where
    Python raises [KeyError]. *)
Fixpoint dict_pop {V : Type} (k : string) (d : dict V)
  : option (V * dict V) :=
  match d with
  | [] => None
  | (k', v) :: d' =>
      if String.eqb k k' then Some (v, d')
      else match dict_pop k d' with
           | Some (w, d'') => Some (w, (k', v) :: d'')
           | None => None
           end
  end.

(** A call that may raise, followed by the rest of the body. *)
Definition bind {A B : Type} (x : exn + A) (k : A -> exn + B) : exn + B :=
  match x with
  | inl e => inl e
  | inr a => k a
  end.

Notation "'let?' x ':=' e 'in' k" := (bind e (fun x => k))
  (at level 10, x name, e at level 100, k at level 200).

Section MetaData.

(** [dataclasses.asdict] copies every field value that is not a dataclass,
    list, tuple or dictionary with [copy.deepcopy].  On an [int], a [bool]
    or [None] the copy is the value.  On a callable it depends on the
    object: a plain function is returned as it is, a [functools.partial] is
    rebuilt as a new object, and an object that cannot be copied makes
    [deepcopy] raise [TypeError].  So the copy of each kind of callable is
    a parameter, which gives the callable of the copy or the exception. *)
Variable deepcopy_LogitCtor : LogitCtor -> exn + LogitCtor.
Variable deepcopy_TestDistCtor : TestDistCtor -> exn + TestDistCtor.

(** [dataclasses.asdict] of a [base.PriorKnowledge]: the dataclass is
    declared outside the modelled files, so its fields, and whether they can
    be copied, are a parameter. *)
Variable PriorKnowledge_asdict : PriorKnowledge -> exn + dict PyValue.

(** The copy of the field [logit_ctor], which may be [None]. *)
Definition deepcopy_logit_ctor (x : option LogitCtor) : exn + PyValue :=
  match x with
  | None => inr PyNone
  | Some l => let? l' := deepcopy_LogitCtor l in inr (PyLogitCtor l')
  end.

(** [dataclasses.asdict(self)]: the fields in declaration order, a nested
    dataclass turned into a dictionary, the other values copied. *)
Definition ProblemConfig_asdict (c : ProblemConfig) : exn + dict PyValue :=
  let? prior_knowledge_dict := PriorKnowledge_asdict (prior_knowledge c) in
  let? logit_ctor_copy := deepcopy_logit_ctor (logit_ctor c) in
  let? test_distribution_copy :=
    deepcopy_TestDistCtor (test_distribution c) in
  inr [ ("prior_knowledge"%string, PyDict prior_knowledge_dict);
        ("seed"%string, PyInt (seed c));
        ("logit_ctor"%string, logit_ctor_copy);
        ("test_distribution"%string, PyTestDistCtor test_distribution_copy);
        ("num_test_seeds"%string, PyInt (num_test_seeds c));
        ("num_enn_samples"%string, PyInt (num_enn_samples c));
        ("num_test_cache"%string, PyInt (num_test_cache c));
        ("epistemic_only"%string, PyBool (epistemic_only c)) ].

Definition meta_data (self : ProblemConfig) : exn + dict PyValue :=
  let? meta := ProblemConfig_asdict self in
  match dict_pop "prior_knowledge" meta with
  | None => inl (KeyError "prior_knowledge")
  | Some (_, meta) =>
      let? prior_knowledge_dict :=
        PriorKnowledge_asdict (prior_knowledge self) in
      inr (dict_update meta prior_knowledge_dict)
  end.

End MetaData.

(** What tells the configs of one sweep apart: [tau] and the seed. *)
Definition sweep_key (c : ProblemConfig) : Z * Z :=
  (tau (prior_knowledge c), seed c).

(** ** Lemmas on strings and dictionaries *)

Lemma str_inj i j : str i = str j -> i = j.
Proof.
  unfold str. intro H.
  apply (f_equal NilEmpty.uint_of_string) in H.
  rewrite !NilEmpty.usu in H. injection H as H.
  apply (f_equal Nat.of_uint) in H.
  now rewrite !Unsigned.of_to in H.
Qed.

Lemma append_inv_head (s a b : string) :
  (s ++ a)%string = (s ++ b)%string -> a = b.
Proof.
  induction s as [|c s IH]; simpl; intro H; [exact H|].
  injection H as H. now apply IH.
Qed.

Lemma problem_id_inj name i j : problem_id name i = problem_id name j -> i = j.
Proof.
  unfold problem_id. intro H.
  now apply append_inv_head, append_inv_head, str_inj in H.
Qed.

Lemma combine_snoc {A B : Type} (l1 : list A) (l2 : list B) a b :
  length l1 = length l2 ->
  combine (l1 ++ [a]) (l2 ++ [b]) = combine l1 l2 ++ [(a, b)].
Proof.
  revert l2. induction l1 as [|x l1 IH]; intros [|y l2] H; simpl in *;
    try discriminate; [reflexivity|].
  f_equal. apply IH. now injection H.
Qed.

Lemma enumerate_snoc {A : Type} (l : list A) (x : A) :
  enumerate (l ++ [x]) = enumerate l ++ [(length l, x)].
Proof.
  unfold enumerate. rewrite length_app. simpl.
  rewrite Nat.add_1_r, seq_S. simpl.
  apply combine_snoc. now rewrite length_seq.
Qed.

Lemma enumerate_length {A : Type} (l : list A) :
  length (enumerate l) = length l.
Proof.
  unfold enumerate. rewrite length_combine, length_seq. apply Nat.min_id.
Qed.

Lemma enumerate_fst {A : Type} (l : list A) :
  map fst (enumerate l) = seq 0 (length l).
Proof.
  induction l as [|x l IH] using rev_ind; [reflexivity|].
  rewrite enumerate_snoc, map_app, IH, length_app. simpl.
  now rewrite Nat.add_1_r, seq_S.
Qed.

Lemma enumerate_snd {A : Type} (l : list A) : map snd (enumerate l) = l.
Proof.
  induction l as [|x l IH] using rev_ind; [reflexivity|].
  now rewrite enumerate_snoc, map_app, IH.
Qed.

Lemma NoDup_map_injective {A B : Type} (f : A -> B) (l : list A) :
  (forall x y, f x = f y -> x = y) -> NoDup l -> NoDup (map f l).
Proof.
  intros Hinj Hnd. induction Hnd as [|x l Hnotin Hnd IH]; simpl.
  - constructor.
  - constructor; [|exact IH].
    intro Hin. apply in_map_iff in Hin as (y & Heq & Hy).
    apply Hinj in Heq. now subst y.
Qed.

Section DictLemmas.
Context {V : Type}.
Implicit Types (d : dict V) (k : string) (v : V).

Lemma dict_mem_In k d : dict_mem k d = true <-> In k (keys d).
Proof.
  unfold dict_mem. rewrite existsb_exists. split.
  - intros (k' & Hin & Heq). apply String.eqb_eq in Heq. now subst.
  - intro Hin. exists k. split; [exact Hin | apply String.eqb_refl].
Qed.

Lemma dict_mem_false k d : dict_mem k d = false <-> ~ In k (keys d).
Proof.
  rewrite <- dict_mem_In. destruct (dict_mem k d); split; congruence.
Qed.

(** Assigning to a fresh key appends the item. *)
Lemma dict_set_fresh k v d : ~ In k (keys d) -> dict_set k v d = d ++ [(k, v)].
Proof.
  induction d as [|[k' v'] d IH]; simpl; intro Hk; [reflexivity|].
  destruct (String.eqb_spec k k') as [->|Hne].
  - exfalso. apply Hk. now left.
  - f_equal. apply IH. intro Hin. apply Hk. now right.
Qed.

Lemma dict_get_app k d1 d2 :
  dict_get k (d1 ++ d2) =
  match dict_get k d1 with Some v => Some v | None => dict_get k d2 end.
Proof.
  induction d1 as [|[k' v'] d1 IH]; simpl; [reflexivity|].
  now destruct (String.eqb k k').
Qed.

Lemma dict_get_None k d : dict_get k d = None <-> ~ In k (keys d).
Proof.
  induction d as [|[k' v'] d IH]; simpl.
  - split; [intros _ [] | reflexivity].
  - destruct (String.eqb_spec k k') as [->|Hne].
    + split; [discriminate | intro H; exfalso; apply H; now left].
    + rewrite IH. split.
      * intros H [Heq|Hin]; [now apply Hne | now apply H].
      * intros H Hin. apply H. now right.
Qed.

Lemma dict_get_In k v d : dict_get k d = Some v -> In (k, v) d.
Proof.
  induction d as [|[k' v'] d IH]; simpl; [discriminate|].
  destruct (String.eqb_spec k k') as [->|Hne].
  - intros [= ->]. now left.
  - intro H. right. now apply IH.
Qed.

Lemma In_dict_get k v d : dict_wf d -> In (k, v) d -> dict_get k d = Some v.
Proof.
  unfold dict_wf. induction d as [|[k' v'] d IH]; simpl; [intros _ []|].
  intros Hwf [Heq|Hin].
  - injection Heq as -> ->. now rewrite String.eqb_refl.
  - inversion Hwf as [|? ? Hnotin Hwf']; subst.
    destruct (String.eqb_spec k k') as [->|Hne].
    + exfalso. apply Hnotin. change k' with (fst (k', v)). now apply in_map.
    + now apply IH.
Qed.

(** The items of a comprehension whose keys are pairwise distinct. *)
Lemma dict_comprehension_items (key : nat -> string) (f : V -> V) l :
  (forall i j, key i = key j -> i = j) ->
  dict_comprehension key f l =
  map (fun iv => (key (fst iv), f (snd iv))) (enumerate l).
Proof.
  intro Hinj. unfold dict_comprehension.
  induction l as [|x l IH] using rev_ind; [reflexivity|].
  rewrite enumerate_snoc, for_each_app, IH, map_app. simpl.
  apply dict_set_fresh. unfold keys. rewrite map_map. simpl.
  rewrite <- (map_map fst key), enumerate_fst.
  intro Hin. apply in_map_iff in Hin as (i & Heq & Hi).
  apply Hinj in Heq. subst i. apply in_seq in Hi. lia.
Qed.

Lemma dict_comprehension_keys (key : nat -> string) (f : V -> V) l :
  (forall i j, key i = key j -> i = j) ->
  keys (dict_comprehension key f l) = map key (seq 0 (length l)).
Proof.
  intro Hinj. rewrite dict_comprehension_items by exact Hinj.
  unfold keys. rewrite map_map. simpl.
  now rewrite <- (map_map fst key), enumerate_fst.
Qed.

Lemma dict_comprehension_values (key : nat -> string) (f : V -> V) l :
  (forall i j, key i = key j -> i = j) ->
  values (dict_comprehension key f l) = map f l.
Proof.
  intro Hinj. rewrite dict_comprehension_items by exact Hinj.
  unfold values. rewrite map_map. simpl.
  now rewrite <- (map_map snd f), enumerate_snd.
Qed.

Lemma dict_comprehension_length (key : nat -> string) (f : V -> V) l :
  (forall i j, key i = key j -> i = j) ->
  length (dict_comprehension key f l) = length l.
Proof.
  intro Hinj. rewrite dict_comprehension_items by exact Hinj.
  now rewrite length_map, enumerate_length.
Qed.

Lemma dict_comprehension_wf (key : nat -> string) (f : V -> V) l :
  (forall i j, key i = key j -> i = j) ->
  dict_wf (dict_comprehension key f l).
Proof.
  intro Hinj. unfold dict_wf. rewrite dict_comprehension_keys by exact Hinj.
  apply NoDup_map_injective; [exact Hinj | apply seq_NoDup].
Qed.

(** Looking the [i]-th key up gives the [i]-th value. *)
Lemma dict_comprehension_get (key : nat -> string) (f : V -> V) l i :
  (forall i j, key i = key j -> i = j) ->
  dict_get (key i) (dict_comprehension key f l) = nth_error (map f l) i.
Proof.
  intro Hinj. rewrite dict_comprehension_items by exact Hinj.
  induction l as [|x l IH] using rev_ind.
  - simpl. now destruct i.
  - rewrite enumerate_snoc, !map_app, dict_get_app, IH. simpl.
    destruct (Nat.lt_ge_cases i (length l)) as [Hlt|Hge].
    + rewrite nth_error_app1 by now rewrite length_map.
      destruct (nth_error (map f l) i) eqn:E; [reflexivity|].
      apply nth_error_None in E. rewrite length_map in E. lia.
    + rewrite nth_error_app2 by now rewrite length_map.
      rewrite length_map.
      assert (E : nth_error (map f l) i = None)
        by (apply nth_error_None; now rewrite length_map).
      rewrite E.
      destruct (String.eqb_spec (key i) (key (length l))) as [Heq|Hne].
      * apply Hinj in Heq. subst i. now rewrite Nat.sub_diag.
      * destruct (i - length l)%nat as [|m] eqn:Em.
        -- exfalso. apply Hne. f_equal. lia.
        -- simpl. now destruct m.
Qed.

(** The item of index [i] is found under the key of [i]. *)
Lemma dict_comprehension_lookup (key : nat -> string) (f : V -> V) l i :
  (forall i j, key i = key j -> i = j) ->
  (i < length l)%nat ->
  exists v,
    dict_get (key i) (dict_comprehension key f l) = Some v
    /\ nth_error (values (dict_comprehension key f l)) i = Some v.
Proof.
  intros Hinj Hi.
  rewrite dict_comprehension_get, dict_comprehension_values by exact Hinj.
  destruct (nth_error (map f l) i) as [v|] eqn:E; [now exists v|].
  apply nth_error_None in E. rewrite length_map in E. lia.
Qed.

End DictLemmas.

(** ** Lemmas on the seed-counting loops *)

Section Emit.
Context {S A B : Type}.

(** When every iteration extends a view of the state by [e a], the loop
    extends it by these pieces in order. *)
Lemma for_each_emit (view : S -> list B) (e : A -> list B) (l : list A)
    (body : A -> S -> S) (st : S) :
  (forall a st, view (body a st) = view st ++ e a) ->
  view (for_each l body st) = view st ++ flat_map e l.
Proof.
  intro H. revert st. induction l as [|a l IH]; intro st.
  - rewrite for_each_nil. simpl. now rewrite app_nil_r.
  - rewrite for_each_cons, IH, H. simpl. now rewrite <- app_assoc.
Qed.
End Emit.

Lemma flat_map_singleton {A B : Type} (f : A -> B) (l : list A) :
  flat_map (fun a => [f a]) l = map f l.
Proof. induction l as [|a l IH]; simpl; [reflexivity | now rewrite IH]. Qed.

Lemma flat_map_pair {A B : Type} (f : A -> list B) (a b : A) :
  flat_map f [a; b] = f a ++ f b.
Proof. simpl. now rewrite app_nil_r. Qed.

Lemma nth_error_map_seq {A B : Type} (g : A -> B) (f : nat -> B)
    (l : list A) (i : nat) (c : A) :
  map g l = map f (seq 0 (length l)) ->
  nth_error l i = Some c -> g c = f i.
Proof.
  intros Hmap Hnth.
  assert (Hi : (i < length l)%nat) by (apply nth_error_Some; congruence).
  apply (f_equal (fun l => nth_error l i)) in Hmap.
  rewrite !nth_error_map, Hnth, nth_error_seq in Hmap.
  apply Nat.ltb_lt in Hi. rewrite Hi in Hmap. simpl in Hmap.
  now injection Hmap.
Qed.

(** What holds of a loop state reached from [(s, cs0)]: the configs appended
    since carry the seeds [s + 1], [s + 2], ... in order, [seed] is the last
    of them, and each appended config satisfies [P]. *)
Definition counted (P : ProblemConfig -> Prop) (s : Z)
    (cs0 : list ProblemConfig) (st : LoopState) : Prop :=
  exists new,
    snd st = cs0 ++ new
    /\ fst st = s + Z.of_nat (length new)
    /\ map seed new = map (fun i => s + 1 + Z.of_nat i) (seq 0 (length new))
    /\ Forall P new.

Lemma counted_init P s cs0 : counted P s cs0 (s, cs0).
Proof.
  exists []. simpl. rewrite app_nil_r, Z.add_0_r. repeat split. constructor.
Qed.

Lemma counted_step P s cs0 st c :
  counted P s cs0 st -> seed c = fst st + 1 -> P c ->
  counted P s cs0 (fst st + 1, snd st ++ [c]).
Proof.
  intros (new & Hsnd & Hfst & Hseeds & HP) Hc HPc.
  exists (new ++ [c]). simpl. rewrite Hsnd, <- app_assoc. split; [reflexivity|].
  rewrite length_app, Nat.add_1_r, seq_S, !map_app, Hseeds. simpl.
  repeat split.
  - lia.
  - do 2 f_equal. rewrite Hc, Hfst. lia.
  - apply Forall_app. split; [exact HP | now constructor].
Qed.

(** The innermost loop of every sweep: [seed += 1], then append a config
    built from the new seed. *)
Lemma seed_loop_counted {A : Type} P s cs0 (mk : Z -> ProblemConfig)
    (l : list A) (body : A -> LoopState -> LoopState) st :
  (forall a st, body a st = (fst st + 1, snd st ++ [mk (fst st + 1)])) ->
  (forall sd, seed (mk sd) = sd /\ P (mk sd)) ->
  counted P s cs0 st -> counted P s cs0 (for_each l body st).
Proof.
  intros Hbody Hmk. apply for_each_inv. intros a st' _ Hst'.
  rewrite Hbody. apply counted_step; [exact Hst' | apply Hmk | apply Hmk].
Qed.

Lemma seed_loop_emit {A B : Type} (g : ProblemConfig -> B) (b : B)
    (mk : Z -> ProblemConfig) (l : list A)
    (body : A -> LoopState -> LoopState) st :
  (forall a st, body a st = (fst st + 1, snd st ++ [mk (fst st + 1)])) ->
  (forall sd, g (mk sd) = b) ->
  map g (snd (for_each l body st)) = map g (snd st) ++ map (fun _ => b) l.
Proof.
  intros Hbody Hmk. rewrite <- (flat_map_singleton (fun _ => b) l).
  apply (for_each_emit (fun st => map g (snd st))).
  intros a st'. rewrite Hbody. simpl. rewrite map_app. simpl.
  now rewrite Hmk.
Qed.

(** A state reached from [(s, cs0)] by appending [k] configs. *)
Lemma counted_nth P s cs0 st k i :
  counted P s cs0 st -> length (snd st) = (length cs0 + k)%nat ->
  (i < k)%nat ->
  exists c, nth_error (snd st) (length cs0 + i) = Some c
    /\ seed c = s + 1 + Z.of_nat i /\ P c.
Proof.
  intros (new & Hsnd & _ & Hseeds & HP) Hlen Hi.
  rewrite Hsnd, length_app in Hlen.
  assert (Hk : length new = k) by lia.
  destruct (nth_error new i) as [c|] eqn:Hnth.
  - exists c. rewrite Hsnd, nth_error_app2 by lia.
    replace (length cs0 + i - length cs0)%nat with i by lia.
    repeat split; [exact Hnth | |].
    + exact (nth_error_map_seq seed _ new i c Hseeds Hnth).
    + rewrite Forall_forall in HP. apply HP. eapply nth_error_In, Hnth.
  - apply nth_error_None in Hnth. lia.
Qed.

(** *** The regression loops *)

Definition regression_defaults (c : ProblemConfig) : Prop :=
  logit_ctor c = None /\ test_distribution c = make_gaussian_sampler
  /\ num_test_seeds c = 1000 /\ num_enn_samples c = 100
  /\ num_test_cache c = 1000 /\ epistemic_only c = false.

Definition regression_grid (num_seed : Z) : list PriorKnowledge :=
  flat_map (fun input_dim =>
    flat_map (fun data_ratio =>
      flat_map (fun noise_std =>
        map (fun _ =>
               mkPriorKnowledge input_dim (data_ratio * input_dim) 1 1 1
                 (Some noise_std) None)
          (range num_seed))
        [0.01; 0.1; 1]%float)
      [1; 10; 100])
    [1; 10; 100].

Lemma regression_loops_counted num_seed s cs0 :
  counted regression_defaults s cs0 (regression_loops num_seed (s, cs0)).
Proof.
  unfold regression_loops.
  apply for_each_inv; [|apply counted_init]. intros input_dim st1 _ H1.
  apply for_each_inv; [|exact H1]. intros data_ratio st2 _ H2.
  apply for_each_inv; [|exact H2]. intros noise_std st3 _ H3.
  apply (seed_loop_counted _ _ _
    (fun seed => with_num_enn_samples 100
       (ProblemConfig_init
          (mkPriorKnowledge input_dim (data_ratio * input_dim) 1 1 1
             (Some noise_std) None) seed)));
    [reflexivity | | exact H3].
  intro sd. repeat split.
Qed.

Lemma regression_loops_emit num_seed st :
  map prior_knowledge (snd (regression_loops num_seed st)) =
  map prior_knowledge (snd st) ++ regression_grid num_seed.
Proof.
  unfold regression_loops, regression_grid.
  apply (for_each_emit (fun st => map prior_knowledge (snd st))).
  intros input_dim st1.
  apply (for_each_emit (fun st => map prior_knowledge (snd st))).
  intros data_ratio st2.
  apply (for_each_emit (fun st => map prior_knowledge (snd st))).
  intros noise_std st3.
  apply (seed_loop_emit prior_knowledge _
    (fun seed => with_num_enn_samples 100
       (ProblemConfig_init
          (mkPriorKnowledge input_dim (data_ratio * input_dim) 1 1 1
             (Some noise_std) None) seed)));
    reflexivity.
Qed.

Lemma range_length n : length (range n) = Z.to_nat n.
Proof. unfold range. now rewrite length_map, length_seq. Qed.

Lemma regression_grid_length num_seed :
  length (regression_grid num_seed) = (27 * Z.to_nat num_seed)%nat.
Proof.
  unfold regression_grid. simpl.
  rewrite !length_app, !length_map, range_length. simpl. lia.
Qed.

Lemma regression_loops_length num_seed st :
  length (snd (regression_loops num_seed st)) =
  (length (snd st) + 27 * Z.to_nat num_seed)%nat.
Proof.
  rewrite <- (length_map prior_knowledge), regression_loops_emit.
  now rewrite length_app, length_map, regression_grid_length.
Qed.

Lemma regression_grid_In num_seed pk :
  In pk (regression_grid num_seed) ->
  num_classes pk = 1 /\ tau pk = 1 /\ layers pk = 1
  /\ exists data_ratio,
       In data_ratio [1; 10; 100] /\ In (input_dim pk) [1; 10; 100]
       /\ num_train pk = data_ratio * input_dim pk.
Proof.
  unfold regression_grid. intro H.
  apply in_flat_map in H as (input_dim & Hd & H).
  apply in_flat_map in H as (data_ratio & Hr & H).
  apply in_flat_map in H as (noise & Hn & H).
  apply in_map_iff in H as (j & <- & _). simpl.
  repeat split. exists data_ratio. repeat split; assumption.
Qed.

Lemma regression_sweep_values num_seed initial_seed :
  values (regression_sweep num_seed initial_seed) =
  snd (regression_loops num_seed (initial_seed, [])).
Proof.
  unfold regression_sweep.
  rewrite dict_comprehension_values by apply problem_id_inj.
  apply map_id.
Qed.

Lemma counted_old P s cs0 st i :
  counted P s cs0 st -> (i < length cs0)%nat ->
  nth_error (snd st) i = nth_error cs0 i.
Proof.
  intros (new & Hsnd & _) Hi. rewrite Hsnd. now apply nth_error_app1.
Qed.

Lemma counted_seeds P s st :
  counted P s [] st ->
  map seed (snd st) =
  map (fun i => s + 1 + Z.of_nat i) (seq 0 (length (snd st))).
Proof. intros (new & Hsnd & _ & Hseeds & _). now rewrite Hsnd. Qed.

Lemma counted_Forall (P Q : ProblemConfig -> Prop) s cs0 st :
  counted P s cs0 st -> Forall Q cs0 -> (forall c, P c -> Q c) ->
  Forall Q (snd st).
Proof.
  intros (new & Hsnd & _ & _ & HP) HQ Himp. rewrite Hsnd.
  apply Forall_app. split; [exact HQ|].
  eapply Forall_impl; [exact Himp | exact HP].
Qed.

Lemma Forall_map_In {A B : Type} (g : A -> B) (l : list A) (G : list B) :
  map g l = G -> Forall (fun c => In (g c) G) l.
Proof.
  intros <-. apply Forall_forall. intros c Hc. now apply in_map.
Qed.

(** *** The classification loops *)

Definition classification_defaults (t : TestDistCtor) (tau0 : Z)
    (c : ProblemConfig) : Prop :=
  logit_ctor c = None /\ test_distribution c = t
  /\ num_test_seeds c = 1000 /\ num_enn_samples c = 1000
  /\ num_test_cache c = 1000 /\ epistemic_only c = false
  /\ tau (prior_knowledge c) = tau0.

Definition classification_grid (num_seed tau : Z) : list PriorKnowledge :=
  flat_map (fun input_dim =>
    flat_map (fun data_ratio =>
      flat_map (fun temperature =>
        map (fun _ =>
               mkPriorKnowledge input_dim (data_ratio * input_dim) 2 tau 2
                 None (Some temperature))
          (range num_seed))
        [0.01; 0.1; 0.5]%float)
      [1; 10; 100; 1000])
    [2; 10; 100].

Lemma classification_loops_counted num_seed tau s cs0 :
  counted (classification_defaults make_polyadic_sampler tau) s cs0
    (classification_loops num_seed tau (s, cs0)).
Proof.
  unfold classification_loops.
  apply for_each_inv; [|apply counted_init]. intros input_dim st1 _ H1.
  apply for_each_inv; [|exact H1]. intros data_ratio st2 _ H2.
  apply for_each_inv; [|exact H2]. intros temperature st3 _ H3.
  apply (seed_loop_counted _ _ _
    (fun seed => with_test_distribution make_polyadic_sampler
       (ProblemConfig_init
          (mkPriorKnowledge input_dim (data_ratio * input_dim) 2 tau 2
             None (Some temperature)) seed)));
    [reflexivity | | exact H3].
  intro sd. repeat split.
Qed.

Lemma classification_loops_emit num_seed tau st :
  map prior_knowledge (snd (classification_loops num_seed tau st)) =
  map prior_knowledge (snd st) ++ classification_grid num_seed tau.
Proof.
  unfold classification_loops, classification_grid.
  apply (for_each_emit (fun st => map prior_knowledge (snd st))).
  intros input_dim st1.
  apply (for_each_emit (fun st => map prior_knowledge (snd st))).
  intros data_ratio st2.
  apply (for_each_emit (fun st => map prior_knowledge (snd st))).
  intros temperature st3.
  apply (seed_loop_emit prior_knowledge _
    (fun seed => with_test_distribution make_polyadic_sampler
       (ProblemConfig_init
          (mkPriorKnowledge input_dim (data_ratio * input_dim) 2 tau 2
             None (Some temperature)) seed)));
    reflexivity.
Qed.

Lemma classification_grid_length num_seed tau :
  length (classification_grid num_seed tau) = (36 * Z.to_nat num_seed)%nat.
Proof.
  unfold classification_grid. simpl.
  rewrite !length_app, !length_map, range_length. simpl. lia.
Qed.

Lemma classification_loops_length num_seed tau st :
  length (snd (classification_loops num_seed tau st)) =
  (length (snd st) + 36 * Z.to_nat num_seed)%nat.
Proof.
  rewrite <- (length_map prior_knowledge), classification_loops_emit.
  now rewrite length_app, length_map, classification_grid_length.
Qed.

Lemma classification_grid_In num_seed tau0 pk :
  In pk (classification_grid num_seed tau0) ->
  num_classes pk = 2 /\ layers pk = 2
  /\ exists data_ratio,
       In data_ratio [1; 10; 100; 1000] /\ In (input_dim pk) [2; 10; 100]
       /\ num_train pk = data_ratio * input_dim pk.
Proof.
  unfold classification_grid. intro H.
  apply in_flat_map in H as (input_dim & Hd & H).
  apply in_flat_map in H as (data_ratio & Hr & H).
  apply in_flat_map in H as (temp & Hn & H).
  apply in_map_iff in H as (j & <- & _). simpl.
  repeat split. exists data_ratio. repeat split; assumption.
Qed.

Lemma classification_sweep_values num_seed initial_seed :
  values (classification_sweep num_seed initial_seed) =
  snd (classification_loops num_seed 10
         (initial_seed,
          snd (classification_loops num_seed 1 (initial_seed, [])))).
Proof.
  unfold classification_sweep.
  rewrite dict_comprehension_values by apply problem_id_inj.
  apply map_id.
Qed.

(** *** The 2d classification loops *)

Definition classification_2d_grid (num_seed tau : Z) : list PriorKnowledge :=
  flat_map (fun num_train =>
    flat_map (fun temperature =>
      map (fun _ =>
             mkPriorKnowledge 2 num_train 2 tau 2 None (Some temperature))
        (range num_seed))
      [0.01; 0.1; 0.5]%float)
    [1; 3; 10; 30; 100; 300; 1000].

Lemma classification_2d_loops_counted num_seed tau s cs0 :
  counted (classification_defaults make_gaussian_sampler tau) s cs0
    (classification_2d_loops num_seed tau (s, cs0)).
Proof.
  unfold classification_2d_loops.
  apply for_each_inv; [|apply counted_init]. intros num_train st1 _ H1.
  apply for_each_inv; [|exact H1]. intros temperature st2 _ H2.
  apply (seed_loop_counted _ _ _
    (fun seed => ProblemConfig_init
       (mkPriorKnowledge 2 num_train 2 tau 2 None (Some temperature)) seed));
    [reflexivity | | exact H2].
  intro sd. repeat split.
Qed.

Lemma classification_2d_loops_emit num_seed tau st :
  map prior_knowledge (snd (classification_2d_loops num_seed tau st)) =
  map prior_knowledge (snd st) ++ classification_2d_grid num_seed tau.
Proof.
  unfold classification_2d_loops, classification_2d_grid.
  apply (for_each_emit (fun st => map prior_knowledge (snd st))).
  intros num_train st1.
  apply (for_each_emit (fun st => map prior_knowledge (snd st))).
  intros temperature st2.
  apply (seed_loop_emit prior_knowledge _
    (fun seed => ProblemConfig_init
       (mkPriorKnowledge 2 num_train 2 tau 2 None (Some temperature)) seed));
    reflexivity.
Qed.

Lemma classification_2d_grid_length num_seed tau :
  length (classification_2d_grid num_seed tau) = (21 * Z.to_nat num_seed)%nat.
Proof.
  unfold classification_2d_grid. simpl.
  rewrite !length_app, !length_map, range_length. simpl. lia.
Qed.

Lemma classification_2d_loops_length num_seed tau st :
  length (snd (classification_2d_loops num_seed tau st)) =
  (length (snd st) + 21 * Z.to_nat num_seed)%nat.
Proof.
  rewrite <- (length_map prior_knowledge), classification_2d_loops_emit.
  now rewrite length_app, length_map, classification_2d_grid_length.
Qed.

Lemma classification_2d_sweep_values num_seed initial_seed :
  values (classification_2d_sweep num_seed initial_seed) =
  snd (classification_2d_loops num_seed 10
         (initial_seed,
          snd (classification_2d_loops num_seed 1 (initial_seed, [])))).
Proof.
  unfold classification_2d_sweep.
  rewrite dict_comprehension_values by apply problem_id_inj.
  apply map_id.
Qed.

(** Two runs of a seed-counting block from the same [seed]: position [k] of
    the first run and position [k] of the second carry the same seed. *)
Lemma two_runs_same_seed (P1 P10 : ProblemConfig -> Prop) s st1 st10 m k :
  counted P1 s [] st1 -> length (snd st1) = m ->
  counted P10 s (snd st1) st10 -> length (snd st10) = (m + m)%nat ->
  (k < m)%nat ->
  exists c1 c10,
    nth_error (snd st10) k = Some c1
    /\ nth_error (snd st10) (m + k) = Some c10
    /\ P1 c1 /\ P10 c10
    /\ seed c1 = s + 1 + Z.of_nat k /\ seed c10 = seed c1.
Proof.
  intros H1 Hl1 H10 Hl10 Hk.
  destruct (counted_nth P1 s [] st1 m k H1 Hl1 Hk) as (c1 & Hn1 & Hs1 & Hp1).
  assert (Hl10' : length (snd st10) = (length (snd st1) + m)%nat) by lia.
  destruct (counted_nth P10 s (snd st1) st10 m k H10 Hl10' Hk)
    as (c10 & Hn10 & Hs10 & Hp10).
  exists c1, c10. simpl in Hn1. rewrite Hl1 in Hn10.
  rewrite (counted_old P10 s (snd st1) st10 k H10) by lia.
  repeat split; try assumption. congruence.
Qed.

Lemma repeated_seed_not_NoDup (l : list ProblemConfig) (m : nat) c1 c10 :
  (0 < m)%nat ->
  nth_error l 0 = Some c1 -> nth_error l (m + 0) = Some c10 ->
  seed c10 = seed c1 -> ~ NoDup (map seed l).
Proof.
  intros Hm H1 H10 Heq Hnd.
  rewrite NoDup_nth_error in Hnd.
  specialize (Hnd 0%nat (m + 0)%nat).
  rewrite !nth_error_map, H1, H10 in Hnd. simpl in Hnd.
  assert (Hlt : (0 < length (map seed l))%nat).
  { rewrite length_map. destruct l; [discriminate | simpl; lia]. }
  specialize (Hnd Hlt). rewrite Heq in Hnd. specialize (Hnd eq_refl). lia.
Qed.

(** ** Lemmas on [_filter_unique_configs] *)

(** [subseq l1 l2]: [l1] is [l2] with some elements left out, the others in
    the order they have in [l2]. *)
Inductive subseq {A : Type} : list A -> list A -> Prop :=
| subseq_nil : subseq [] []
| subseq_skip x l1 l2 : subseq l1 l2 -> subseq l1 (x :: l2)
| subseq_keep x l1 l2 : subseq l1 l2 -> subseq (x :: l1) (x :: l2).

Lemma subseq_snoc_keep {A : Type} (l1 l2 : list A) x :
  subseq l1 l2 -> subseq (l1 ++ [x]) (l2 ++ [x]).
Proof.
  induction 1; simpl;
    [apply subseq_keep, subseq_nil | now apply subseq_skip
    | now apply subseq_keep].
Qed.

Lemma subseq_snoc_skip {A : Type} (l1 l2 : list A) x :
  subseq l1 l2 -> subseq l1 (l2 ++ [x]).
Proof.
  induction 1; simpl;
    [apply subseq_skip, subseq_nil | now apply subseq_skip
    | now apply subseq_keep].
Qed.

Lemma subseq_refl {A : Type} (l : list A) : subseq l l.
Proof. induction l; [constructor | now apply subseq_keep]. Qed.

Lemma subseq_In {A : Type} (l1 l2 : list A) x :
  subseq l1 l2 -> In x l1 -> In x l2.
Proof.
  induction 1; simpl; intros Hin; [exact Hin | right; auto |].
  destruct Hin as [->|Hin]; [now left | right; auto].
Qed.

Lemma filter_snoc {A : Type} (f : A -> bool) (l : list A) x :
  filter f (l ++ [x]) = filter f l ++ (if f x then [x] else []).
Proof. rewrite filter_app. simpl. now destruct (f x). Qed.

(** A loop, with the part of the list already visited made explicit. *)
Lemma for_each_inv_prefix {S A : Type} (P : list A -> S -> Prop)
    (l : list A) (body : A -> S -> S) (st : S) :
  P [] st ->
  (forall p a st, P p st -> P (p ++ [a]) (body a st)) ->
  P l (for_each l body st).
Proof.
  intros H0 Hstep. induction l as [|a l IH] using rev_ind; [exact H0|].
  rewrite for_each_app. now apply Hstep.
Qed.

(** Each config kept differs from every config kept before it. *)
Definition kept_once (r : list ProblemConfig) : Prop :=
  forall l1 c l2, r = l1 ++ c :: l2 -> set_mem c l1 = false.

Lemma set_mem_rev c l : set_mem c (rev l) = set_mem c l.
Proof.
  unfold set_mem. apply eq_true_iff_eq. rewrite !existsb_exists.
  split; intros (x & Hin & Hx); exists x; split; try exact Hx;
    [now apply in_rev | now apply in_rev in Hin].
Qed.

Lemma kept_once_snoc r c :
  kept_once r -> set_mem c r = false -> kept_once (r ++ [c]).
Proof.
  intros Hr Hc l1 x l2 Heq.
  destruct l2 as [|y l2 _] using rev_ind.
  - apply app_inj_tail in Heq as [-> ->]. exact Hc.
  - rewrite app_comm_cons, app_assoc in Heq.
    apply app_inj_tail in Heq as [-> _]. now apply (Hr l1 x l2).
Qed.

(** The state of the loop of [_filter_unique_configs] once the configs of
    [p] are visited. *)
Definition unique_inv (filter_fn : ProblemConfig -> bool)
    (p : list ProblemConfig)
    (st : list ProblemConfig * list ProblemConfig) : Prop :=
  fst st = rev (snd st)
  /\ subseq (snd st) (filter filter_fn p)
  /\ (forall c, In c p -> filter_fn c = true ->
        In c (snd st)
        \/ exists c', In c' (snd st) /\ ProblemConfig_eqb c c' = true)
  /\ kept_once (snd st).

Lemma filter_unique_configs_inv configs filter_fn :
  unique_inv filter_fn configs
    (for_each configs (fun problem_config st =>
       if filter_fn problem_config then
         if negb (set_mem problem_config (fst st)) then
           (problem_config :: fst st, snd st ++ [problem_config])
         else st
       else st)
       ([], [])).
Proof.
  apply for_each_inv_prefix.
  - repeat split; simpl; [constructor | intros c [] | ].
    intros l1 c l2 H. now destruct l1.
  - intros p a [obs new] (Hobs & Hsub & Hcov & Honce).
    unfold unique_inv. simpl in *. rewrite filter_snoc.
    destruct (filter_fn a) eqn:Hfa.
    + destruct (set_mem a obs) eqn:Hmem; simpl.
      * repeat split; [exact Hobs | now apply subseq_snoc_skip | | exact Honce].
        intros c Hin Hfc. apply in_app_or in Hin as [Hin|[<-|[]]];
          [now apply Hcov|].
        right. rewrite Hobs, set_mem_rev in Hmem.
        unfold set_mem in Hmem. apply existsb_exists in Hmem.
        destruct Hmem as (c' & Hc' & Heq). now exists c'.
      * repeat split.
        -- now rewrite rev_app_distr, Hobs.
        -- now apply subseq_snoc_keep.
        -- intros c Hin Hfc. apply in_app_or in Hin as [Hin|[<-|[]]].
           ++ destruct (Hcov c Hin Hfc) as [H|(c' & Hc' & Heq)].
              ** left. apply in_or_app. now left.
              ** right. exists c'. split; [apply in_or_app; now left|exact Heq].
           ++ left. apply in_or_app. right. now left.
        -- apply kept_once_snoc; [exact Honce|].
           now rewrite <- set_mem_rev, <- Hobs.
    + rewrite app_nil_r. repeat split; try assumption.
      intros c Hin Hfc. apply in_app_or in Hin as [Hin|[<-|[]]];
        [now apply Hcov | congruence].
Qed.

(** Visiting one more config: it is kept exactly when it passes the filter
    and equals no config kept so far. *)
Lemma filter_unique_configs_snoc configs c filter_fn :
  _filter_unique_configs (configs ++ [c]) filter_fn =
  let r := _filter_unique_configs configs filter_fn in
  if filter_fn c && negb (set_mem c r) then r ++ [c] else r.
Proof.
  unfold _filter_unique_configs. rewrite for_each_app, for_each_cons.
  rewrite for_each_nil.
  destruct (filter_unique_configs_inv configs filter_fn) as (Hobs & _).
  simpl in *. rewrite Hobs, set_mem_rev.
  destruct (filter_fn c); simpl; [|reflexivity].
  now destruct (set_mem c _).
Qed.

(** ** Lemmas on [_merge_without_overwrite] *)

Section Merge.
Context {V : Type}.
Implicit Types (d sweep settings : dict V) (sweeps : list (dict V)).

(** Some key is in two of the dictionaries. *)
Definition shared_key sweeps : Prop :=
  exists i j si sj k,
    (i < j)%nat /\ nth_error sweeps i = Some si /\ nth_error sweeps j = Some sj
    /\ In k (keys si) /\ In k (keys sj).

(** No key of [sweeps] is in [seen] or in an earlier one of them. *)
Fixpoint fresh_keys (seen : list string) sweeps : Prop :=
  match sweeps with
  | [] => True
  | sweep :: rest =>
      (forall k, In k (keys sweep) -> ~ In k seen)
      /\ fresh_keys (seen ++ keys sweep) rest
  end.

Lemma keys_app d1 d2 : keys (d1 ++ d2) = keys d1 ++ keys d2.
Proof. unfold keys. apply map_app. Qed.

Lemma keys_intersection_nil sweep settings :
  keys_intersection sweep settings = [] <->
  (forall k, In k (keys sweep) -> ~ In k (keys settings)).
Proof.
  unfold keys_intersection. induction (keys sweep) as [|k l IH]; simpl.
  - split; [intros _ k [] | reflexivity].
  - destruct (dict_mem k settings) eqn:Hmem.
    + split; [discriminate|]. intro H. exfalso.
      apply (H k); [now left | now apply dict_mem_In].
    + rewrite IH. apply dict_mem_false in Hmem. split.
      * intros H k' [<-|Hin]; [exact Hmem | now apply H].
      * intros H k' Hin. apply H. now right.
Qed.

(** Updating with a dictionary of fresh keys appends its items. *)
Lemma dict_update_fresh settings sweep :
  dict_wf sweep ->
  (forall k, In k (keys sweep) -> ~ In k (keys settings)) ->
  dict_update settings sweep = settings ++ sweep.
Proof.
  unfold dict_update, dict_wf. revert settings.
  induction sweep as [|[k v] sweep IH]; intros settings Hwf Hfresh.
  - rewrite for_each_nil. now rewrite app_nil_r.
  - rewrite for_each_cons. simpl in *. inversion Hwf as [|? ? Hk Hwf']; subst.
    rewrite dict_set_fresh by (apply Hfresh; now left).
    rewrite IH; [now rewrite <- app_assoc | exact Hwf' |].
    intros k' Hin. rewrite keys_app. simpl. intro Hin'.
    apply in_app_or in Hin' as [Hin'|[<-|[]]].
    + apply (Hfresh k'); [now right | exact Hin'].
    + now apply Hk.
Qed.

Lemma merge_from_fresh sweeps settings :
  Forall dict_wf sweeps -> fresh_keys (keys settings) sweeps ->
  merge_from sweeps settings = inr (settings ++ concat sweeps).
Proof.
  revert settings. induction sweeps as [|sweep rest IH];
    intros settings Hwf Hfresh; simpl.
  - now rewrite app_nil_r.
  - destruct Hfresh as [Hsweep Hrest]. inversion Hwf as [|? ? Hw Hwf']; subst.
    rewrite (proj2 (keys_intersection_nil _ _) Hsweep).
    rewrite dict_update_fresh by assumption.
    rewrite IH; [now rewrite <- app_assoc | exact Hwf' |].
    now rewrite keys_app.
Qed.

Lemma merge_from_not_fresh sweeps settings :
  Forall dict_wf sweeps -> ~ fresh_keys (keys settings) sweeps ->
  exists msg, merge_from sweeps settings = inl (KeyError msg).
Proof.
  revert settings. induction sweeps as [|sweep rest IH];
    intros settings Hwf Hnot; simpl in *.
  - now exfalso.
  - inversion Hwf as [|? ? Hw Hwf']; subst.
    destruct (keys_intersection sweep settings) as [|k l] eqn:Hint.
    + pose proof (proj1 (keys_intersection_nil _ _) Hint) as Hsweep.
      rewrite dict_update_fresh by assumption.
      apply IH; [exact Hwf'|]. rewrite keys_app. intro Hrest.
      apply Hnot. now split.
    + now eexists.
Qed.

(** [fresh_keys], said with positions. *)
Lemma fresh_keys_shared sweeps seen :
  fresh_keys seen sweeps <->
  (forall i si k, nth_error sweeps i = Some si -> In k (keys si) ->
     ~ In k seen)
  /\ ~ shared_key sweeps.
Proof.
  revert seen. induction sweeps as [|sweep rest IH]; intro seen; simpl.
  - split; [intros _|reflexivity]. split.
    + intros [|i] si k H; discriminate.
    + intros (i & j & si & sj & k & _ & H & _). destruct i; discriminate.
  - rewrite IH. split.
    + intros (Hsweep & Hseen & Hshared). split.
      * intros [|i] si k Hnth Hin; simpl in Hnth.
        -- injection Hnth as <-. now apply Hsweep.
        -- intro Hk. apply (Hseen i si k Hnth Hin). apply in_or_app. now left.
      * intros (i & j & si & sj & k & Hlt & Hi & Hj & Hki & Hkj).
        destruct j as [|j]; [lia|]. simpl in Hj.
        destruct i as [|i]; simpl in Hi.
        -- injection Hi as <-.
           apply (Hseen j sj k Hj Hkj). apply in_or_app. now right.
        -- apply Hshared. exists i, j, si, sj, k.
           repeat split; try assumption. lia.
    + intros (Hseen & Hshared). split; [|split].
      * intros k Hin. exact (Hseen 0%nat sweep k eq_refl Hin).
      * intros i si k Hnth Hin Hk. apply in_app_or in Hk as [Hk|Hk].
        -- exact (Hseen (S i) si k Hnth Hin Hk).
        -- apply Hshared. exists 0%nat, (S i), sweep, si, k.
           repeat split; try assumption. lia.
      * intros (i & j & si & sj & k & Hlt & Hi & Hj & Hki & Hkj).
        apply Hshared. exists (S i), (S j), si, sj, k.
        repeat split; try assumption. lia.
Qed.

Lemma fresh_keys_nil_shared sweeps :
  fresh_keys [] sweeps <-> ~ shared_key sweeps.
Proof.
  rewrite fresh_keys_shared. split; [now intros [_ H]|].
  intro H. split; [|exact H]. intros i si k _ _ [].
Qed.

Lemma some_in_dec (l seen : list string) :
  (forall k, In k l -> ~ In k seen) \/ (exists k, In k l /\ In k seen).
Proof.
  induction l as [|k l IHl].
  - left. intros k [].
  - destruct (in_dec string_dec k seen) as [Hin|Hnin].
    + right. exists k. split; [now left | exact Hin].
    + destruct IHl as [Hl|(k' & Hk' & Hin)].
      * left. intros k' [<-|Hk']; [exact Hnin | now apply Hl].
      * right. exists k'. split; [now right | exact Hin].
Qed.

(** Either all keys are fresh, or a key of some sweep is found in [seen] or
    in an earlier sweep. *)
Lemma fresh_or_found sweeps seen :
  fresh_keys seen sweeps
  \/ (exists i si k,
        nth_error sweeps i = Some si /\ In k (keys si) /\ In k seen)
  \/ shared_key sweeps.
Proof.
  revert seen. induction sweeps as [|sweep rest IH]; intro seen; simpl.
  - now left.
  - destruct (some_in_dec (keys sweep) seen) as [Hnone|(k & Hk & Hin)].
    + destruct (IH (seen ++ keys sweep))
        as [Hrest|[(i & si & k & Hnth & Hk & Hin)|Hshared]].
      * left. now split.
      * apply in_app_or in Hin as [Hin|Hin].
        -- right. left. now exists (S i), si, k.
        -- right. right. exists 0%nat, (S i), sweep, si, k.
           repeat split; try assumption. lia.
      * right. right.
        destruct Hshared as (i & j & si & sj & k & Hlt & Hi & Hj & Hki & Hkj).
        exists (S i), (S j), si, sj, k. repeat split; try assumption. lia.
    + right. left. now exists 0%nat, sweep, k.
Qed.

Lemma fresh_or_shared sweeps : fresh_keys [] sweeps \/ shared_key sweeps.
Proof.
  destruct (fresh_or_found sweeps []) as [H|[(i & si & k & _ & _ & [])|H]];
    [now left | now right].
Qed.

Lemma fresh_keys_NoDup sweeps seen :
  Forall dict_wf sweeps -> NoDup seen -> fresh_keys seen sweeps ->
  NoDup (seen ++ keys (concat sweeps)).
Proof.
  revert seen. induction sweeps as [|sweep rest IH];
    intros seen Hwf Hseen Hfresh; simpl in *.
  - now rewrite app_nil_r.
  - destruct Hfresh as [Hsweep Hrest]. inversion Hwf as [|? ? Hw Hwf']; subst.
    rewrite keys_app, app_assoc. apply IH; [exact Hwf' | | exact Hrest].
    clear IH Hrest. unfold dict_wf in Hw.
    induction seen as [|x seen IHs]; simpl; [exact Hw|].
    inversion Hseen as [|? ? Hx Hseen']; subst. constructor.
    + intro Hin. apply in_app_or in Hin as [Hin|Hin]; [now apply Hx|].
      apply (Hsweep x Hin). now left.
    + apply IHs; [exact Hseen'|]. intros k Hk Hin.
      apply (Hsweep k Hk). now right.
Qed.

Lemma In_concat_dict_get sweeps k v :
  Forall dict_wf sweeps -> dict_wf (concat sweeps) ->
  dict_get k (concat sweeps) = Some v <->
  exists sweep, In sweep sweeps /\ dict_get k sweep = Some v.
Proof.
  intros Hwf Hall. split.
  - intro Hget. apply dict_get_In, in_concat in Hget as (sweep & Hin & Hkv).
    exists sweep. split; [exact Hin|]. apply In_dict_get; [|exact Hkv].
    rewrite Forall_forall in Hwf. now apply Hwf.
  - intros (sweep & Hin & Hget). apply In_dict_get; [exact Hall|].
    apply in_concat. exists sweep. split; [exact Hin|].
    now apply dict_get_In.
Qed.

End Merge.

Lemma component_sweeps_wf : Forall dict_wf component_sweeps.
Proof.
  unfold component_sweeps, regression_sweep, regression_test_sweep,
    enn_paper_sweep, enn_paper_test_sweep, classification_sweep,
    classification_test_sweep, classification_2d_sweep,
    classification_2d_test_sweep.
  repeat (apply Forall_cons;
          [apply dict_comprehension_wf, problem_id_inj|]).
  apply Forall_nil.
Qed.

Lemma merge_without_overwrite_ok {V : Type} (sweeps : list (dict V)) :
  Forall dict_wf sweeps -> ~ shared_key sweeps ->
  _merge_without_overwrite sweeps = inr (concat sweeps).
Proof.
  intros Hwf Hno. apply fresh_keys_nil_shared in Hno.
  unfold _merge_without_overwrite. now rewrite merge_from_fresh.
Qed.

Lemma merge_without_overwrite_raises {V : Type} (sweeps : list (dict V)) :
  Forall dict_wf sweeps ->
  (exists msg, _merge_without_overwrite sweeps = inl (KeyError msg))
  <-> shared_key sweeps.
Proof.
  intro Hwf. split.
  - intros (msg & Hraise).
    destruct (fresh_or_shared sweeps) as [Hfresh|Hshared]; [|exact Hshared].
    apply fresh_keys_nil_shared in Hfresh.
    rewrite merge_without_overwrite_ok in Hraise by assumption. discriminate.
  - intro Hshared. apply merge_from_not_fresh; [exact Hwf|].
    simpl. rewrite fresh_keys_nil_shared. now intro H.
Qed.

(** ** Lemmas on two runs of a loop *)

(** A relation between states kept by every iteration is kept by the loop
    run from two related states. *)
Lemma for_each_rel {S A : Type} (R : S -> S -> Prop) (l : list A)
    (body body' : A -> S -> S) (st st' : S) :
  (forall a st st', R st st' -> R (body a st) (body' a st')) ->
  R st st' -> R (for_each l body st) (for_each l body' st').
Proof.
  intro Hbody. revert st st'. induction l as [|a l IH]; intros st st' H.
  - exact H.
  - rewrite !for_each_cons. apply IH. now apply Hbody.
Qed.

(** The state of a run started [offset] higher. *)
Definition shifted (offset : Z) (st st' : LoopState) : Prop :=
  fst st' = fst st + offset /\ snd st' = map (shift_seed offset) (snd st).

Lemma shifted_step offset (mk : Z -> ProblemConfig) st st' :
  (forall sd, mk (sd + offset) = shift_seed offset (mk sd)) ->
  shifted offset st st' ->
  shifted offset (fst st + 1, snd st ++ [mk (fst st + 1)])
    (fst st' + 1, snd st' ++ [mk (fst st' + 1)]).
Proof.
  intros Hmk [Hfst Hsnd]. split; simpl.
  - lia.
  - rewrite Hsnd, map_app. simpl. do 2 f_equal. rewrite <- Hmk.
    f_equal. lia.
Qed.

Lemma regression_loops_shifted num_seed offset st st' :
  shifted offset st st' ->
  shifted offset (regression_loops num_seed st)
    (regression_loops num_seed st').
Proof.
  unfold regression_loops.
  apply for_each_rel. intros input_dim st1 st1'.
  apply for_each_rel. intros data_ratio st2 st2'.
  apply for_each_rel. intros noise_std st3 st3'.
  apply for_each_rel. intros unused st4 st4' H.
  apply (shifted_step offset
    (fun seed => with_num_enn_samples 100
       (ProblemConfig_init
          (mkPriorKnowledge input_dim (data_ratio * input_dim) 1 1 1
             (Some noise_std) None) seed))); [reflexivity | exact H].
Qed.

Lemma classification_loops_shifted num_seed tau offset st st' :
  shifted offset st st' ->
  shifted offset (classification_loops num_seed tau st)
    (classification_loops num_seed tau st').
Proof.
  unfold classification_loops.
  apply for_each_rel. intros input_dim st1 st1'.
  apply for_each_rel. intros data_ratio st2 st2'.
  apply for_each_rel. intros temperature st3 st3'.
  apply for_each_rel. intros unused st4 st4' H.
  apply (shifted_step offset
    (fun seed => with_test_distribution make_polyadic_sampler
       (ProblemConfig_init
          (mkPriorKnowledge input_dim (data_ratio * input_dim) 2 tau 2
             None (Some temperature)) seed))); [reflexivity | exact H].
Qed.

Lemma classification_2d_loops_shifted num_seed tau offset st st' :
  shifted offset st st' ->
  shifted offset (classification_2d_loops num_seed tau st)
    (classification_2d_loops num_seed tau st').
Proof.
  unfold classification_2d_loops.
  apply for_each_rel. intros num_train st1 st1'.
  apply for_each_rel. intros temperature st2 st2'.
  apply for_each_rel. intros unused st3 st3' H.
  apply (shifted_step offset
    (fun seed => ProblemConfig_init
       (mkPriorKnowledge 2 num_train 2 tau 2 None (Some temperature)) seed));
    [reflexivity | exact H].
Qed.

Lemma dict_comprehension_keys_length {V : Type} (key : nat -> string)
    (f g : V -> V) (l l' : list V) :
  length l = length l' ->
  keys (dict_comprehension key f l) = keys (dict_comprehension key g l').
Proof.
  intro Hlen. unfold dict_comprehension.
  assert (Hgen : forall d d',
    keys d = keys d' ->
    forall (e : list (nat * V)) (e' : list (nat * V)),
    map fst e = map fst e' ->
    keys (for_each e (fun iv d => dict_set (key (fst iv)) (f (snd iv)) d) d)
    = keys (for_each e'
              (fun iv d => dict_set (key (fst iv)) (g (snd iv)) d) d')).
  { intros d d' Hd e. revert d d' Hd.
    induction e as [|[i v] e IH]; intros d d' Hd [|[i' v'] e'] He;
      try discriminate; [exact Hd|].
    simpl in He. injection He as <- He. rewrite !for_each_cons.
    apply IH; [|exact He]. simpl. clear IH He.
    revert d' Hd. induction d as [|[k w] d IHd]; intros [|[k' w'] d'] Hd;
      try discriminate; [reflexivity|].
    simpl in Hd. injection Hd as <- Hd. simpl.
    destruct (String.eqb (key i) k); simpl; [now f_equal|].
    f_equal. now apply IHd. }
  apply Hgen; [reflexivity|].
  now rewrite !enumerate_fst, Hlen.
Qed.

Lemma range_nonpositive n : n <= 0 -> range n = [].
Proof.
  intro H. unfold range. now replace (Z.to_nat n) with 0%nat by lia.
Qed.

(** ** More on [_filter_unique_configs] *)

Lemma kept_once_prefix r c :
  kept_once (r ++ [c]) -> kept_once r /\ set_mem c r = false.
Proof.
  intro H. split.
  - intros l1 x l2 Heq. apply (H l1 x (l2 ++ [c])).
    now rewrite Heq, <- app_assoc.
  - apply (H r c []). reflexivity.
Qed.

(** Configs that all pass the filter and are kept once are all kept. *)
Lemma filter_unique_configs_fixed r filter_fn :
  kept_once r -> Forall (fun c => filter_fn c = true) r ->
  _filter_unique_configs r filter_fn = r.
Proof.
  induction r as [|c r IH] using rev_ind; intros Honce Hpass;
    [reflexivity|].
  apply kept_once_prefix in Honce as [Honce Hc].
  apply Forall_app in Hpass as [Hpass Hfc]. inversion Hfc as [|? ? Hf _].
  rewrite filter_unique_configs_snoc. cbv zeta.
  rewrite (IH Honce Hpass), Hf, Hc. reflexivity.
Qed.

Lemma filter_unique_configs_pass configs filter_fn :
  Forall (fun c => filter_fn c = true)
    (_filter_unique_configs configs filter_fn).
Proof.
  destruct (filter_unique_configs_inv configs filter_fn) as (_ & Hsub & _).
  apply Forall_forall. intros c Hc.
  apply (subseq_In _ _ c Hsub) in Hc. now apply filter_In in Hc.
Qed.

Lemma filter_unique_configs_kept_once configs filter_fn :
  kept_once (_filter_unique_configs configs filter_fn).
Proof.
  now destruct (filter_unique_configs_inv configs filter_fn) as (_ & _ & _ & H).
Qed.

(** On configs without NaN, [==] is reflexive. *)
Lemma ProblemConfig_eqb_refl c : nan_free c -> ProblemConfig_eqb c c = true.
Proof.
  intros [Hn Ht]. unfold ProblemConfig_eqb, PriorKnowledge_eqb.
  rewrite !Z.eqb_refl, Bool.eqb_reflx.
  assert (Hf : forall x, is_number x = true ->
                 option_eqb PrimFloat.eqb x x = true).
  { intros [f|]; [|reflexivity]. simpl. unfold is_nan.
    now destruct (PrimFloat.eqb f f). }
  rewrite (Hf _ Hn), (Hf _ Ht).
  assert (Hl : option_eqb LogitCtor_eqb (logit_ctor c) (logit_ctor c) = true).
  { destruct (logit_ctor c) as [[i]|]; [|reflexivity]. apply Nat.eqb_refl. }
  rewrite Hl. now destruct (test_distribution c).
Qed.

Lemma set_mem_false c s :
  set_mem c s = false <->
  forall c', In c' s -> ProblemConfig_eqb c c' = false.
Proof.
  unfold set_mem. split.
  - intros H c' Hin. destruct (ProblemConfig_eqb c c') eqn:E; [|reflexivity].
    rewrite <- H. symmetry. apply existsb_exists. now exists c'.
  - intro H. destruct (existsb _ s) eqn:E; [|reflexivity].
    apply existsb_exists in E as (c' & Hin & Heq).
    now rewrite (H c' Hin) in Heq.
Qed.

Lemma set_mem_In c s : nan_free c -> In c s -> set_mem c s = true.
Proof.
  intros Hc Hin. apply existsb_exists. exists c.
  split; [exact Hin | now apply ProblemConfig_eqb_refl].
Qed.

(** Configs without NaN that are kept once are pairwise different. *)
Lemma kept_once_NoDup r : kept_once r -> Forall nan_free r -> NoDup r.
Proof.
  induction r as [|c r IH] using rev_ind; intros Honce Hnan; [constructor|].
  apply kept_once_prefix in Honce as [Honce Hc].
  apply Forall_app in Hnan as [Hnan Hnc]. inversion Hnc as [|? ? Hn _].
  apply NoDup_app; [now apply IH | repeat constructor; intros [] |].
  intros a Ha [<-|[]]. rewrite (set_mem_In c r Hn Ha) in Hc. discriminate.
Qed.

Lemma filter_unique_configs_In configs filter_fn c :
  In c (_filter_unique_configs configs filter_fn) -> In c configs.
Proof.
  destruct (filter_unique_configs_inv configs filter_fn) as (_ & Hsub & _).
  intro Hc. apply (subseq_In _ _ c Hsub) in Hc. now apply filter_In in Hc.
Qed.

(** ** More on problem ids and merging *)

Lemma problem_id_inj_name name1 name2 i j :
  sweep_name_ok name1 -> sweep_name_ok name2 ->
  problem_id name1 i = problem_id name2 j -> name1 = name2 /\ i = j.
Proof.
  unfold sweep_name_ok, problem_id, SEPARATOR. revert name2.
  induction name1 as [|a name1 IH]; intros [|b name2] H1 H2 Heq;
    cbn [append has_char] in *.
  - injection Heq as Heq. split; [reflexivity | now apply str_inj].
  - injection Heq as Hb _. rewrite <- Hb, Ascii.eqb_refl in H2.
    discriminate.
  - injection Heq as Ha _. rewrite Ha, Ascii.eqb_refl in H1.
    discriminate.
  - injection Heq as <- Heq.
    apply orb_false_iff in H1 as [_ H1]. apply orb_false_iff in H2 as [_ H2].
    destruct (IH name2 H1 H2 Heq) as [-> ->]. now split.
Qed.

Lemma named_sweep_keys {V : Type} (nfl : string * (V -> V) * list V) k :
  In k (keys (named_sweep nfl)) ->
  exists i, k = problem_id (fst (fst nfl)) i.
Proof.
  unfold named_sweep.
  rewrite dict_comprehension_keys by apply problem_id_inj.
  intro H. apply in_map_iff in H as (i & <- & _). now exists i.
Qed.

Lemma merge_from_app {V : Type} (s1 s2 : list (dict V)) (settings : dict V) :
  merge_from (s1 ++ s2) settings =
  match merge_from s1 settings with
  | inl e => inl e
  | inr d => merge_from s2 d
  end.
Proof.
  revert settings. induction s1 as [|sweep s1 IH]; intro settings; simpl;
    [reflexivity|].
  destruct (keys_intersection sweep settings); [apply IH | reflexivity].
Qed.

Lemma merge_result_wf {V : Type} (sweeps : list (dict V)) (d : dict V) :
  Forall dict_wf sweeps -> _merge_without_overwrite sweeps = inr d ->
  d = concat sweeps /\ dict_wf d.
Proof.
  intros Hwf Hd.
  destruct (fresh_or_shared sweeps) as [Hfresh|Hshared].
  - unfold _merge_without_overwrite in Hd.
    rewrite merge_from_fresh in Hd by assumption. injection Hd as <-.
    split; [reflexivity|].
    exact (fresh_keys_NoDup sweeps [] Hwf (NoDup_nil _) Hfresh).
  - apply (merge_without_overwrite_raises sweeps Hwf) in Hshared
      as (msg & Hraise).
    rewrite Hraise in Hd. discriminate.
Qed.

(** ** Lemmas on dictionary updates *)

Section DictUpdate.
Context {V : Type}.
Implicit Types (d other : dict V) (k : string) (v : V).


Lemma dict_set_keys_In k k' v d :
  In k (keys (dict_set k' v d)) <-> k = k' \/ In k (keys d).
Proof.
  induction d as [|[k0 v0] d IH]; simpl.
  - split; [intros [<-|[]]; now left | intros [->|[]]; now left].
  - destruct (String.eqb_spec k' k0) as [->|Hne]; simpl.
    + split; [intros [<-|H]; auto | intros [->|[<-|H]]; auto].
    + rewrite IH. split; [intros [<-|[->|H]]; auto | intros [->|[<-|H]]; auto].
Qed.

Lemma dict_set_wf k v d : dict_wf d -> dict_wf (dict_set k v d).
Proof.
  unfold dict_wf. induction d as [|[k0 v0] d IH]; simpl; intro Hwf.
  - constructor; [intros [] | constructor].
  - inversion Hwf as [|? ? Hk0 Hwf']; subst.
    destruct (String.eqb_spec k k0) as [->|Hne]; simpl.
    + now constructor.
    + constructor; [|now apply IH].
      intro Hin. apply dict_set_keys_In in Hin as [->|Hin]; auto.
Qed.

Lemma dict_update_wf d other : dict_wf d -> dict_wf (dict_update d other).
Proof.
  intro Hwf. unfold dict_update. apply for_each_inv; [|exact Hwf].
  intros kv st _. apply dict_set_wf.
Qed.


Lemma dict_update_keys_In k d other :
  In k (keys (dict_update d other)) <-> In k (keys d) \/ In k (keys other).
Proof.
  unfold dict_update. revert d.
  induction other as [|[k0 v0] other IH]; intro d.
  - rewrite for_each_nil. simpl. tauto.
  - rewrite for_each_cons, IH, dict_set_keys_In. simpl.
    split; [intros [[->|H]|H]; auto | intros [H|[->|H]]; auto].
Qed.

End DictUpdate.

(** ** Lemmas on [SETTINGS] and [meta_data] *)

Lemma component_sweeps_merged :
  _merge_without_overwrite component_sweeps = inr (concat component_sweeps).
Proof. vm_compute. reflexivity. Qed.

Lemma dict_mem_eight {V : Type} (d : dict V)
    (t1 t2 t3 t4 t5 t6 t7 t8 : list string) :
  keys d = t1 ++ t2 ++ t3 ++ t4 ++ t5 ++ t6 ++ t7 ++ t8 ->
  forall id,
    dict_mem id d = true <->
    In id t1 \/ In id t2 \/ In id t3 \/ In id t4 \/ In id t5 \/ In id t6
    \/ In id t7 \/ In id t8.
Proof.
  intros Hkeys id. rewrite dict_mem_In, Hkeys, !in_app_iff. tauto.
Qed.

(** The items of [meta_data] before the update: the config's own fields
    but ['prior_knowledge'], with the copies of the two callables. *)
Lemma meta_data_ok deepcopy_lc deepcopy_td asdict_pk self pk lc td :
  asdict_pk (prior_knowledge self) = inr pk ->
  deepcopy_logit_ctor deepcopy_lc (logit_ctor self) = inr lc ->
  deepcopy_td (test_distribution self) = inr td ->
  meta_data deepcopy_lc deepcopy_td asdict_pk self =
  inr (dict_update
         [ ("seed"%string, PyInt (seed self));
           ("logit_ctor"%string, lc);
           ("test_distribution"%string, PyTestDistCtor td);
           ("num_test_seeds"%string, PyInt (num_test_seeds self));
           ("num_enn_samples"%string, PyInt (num_enn_samples self));
           ("num_test_cache"%string, PyInt (num_test_cache self));
           ("epistemic_only"%string, PyBool (epistemic_only self)) ]
         pk).
Proof.
  intros Hpk Hlc Htd. unfold meta_data, ProblemConfig_asdict.
  rewrite Hpk, Hlc, Htd. reflexivity.
Qed.

(** ** Configs of one sweep are pairwise different *)

Lemma ProblemConfig_eqb_key a b :
  ProblemConfig_eqb a b = true -> sweep_key a = sweep_key b.
Proof.
  unfold ProblemConfig_eqb, PriorKnowledge_eqb, sweep_key. intro H.
  repeat (apply andb_true_iff in H as [H ?]).
  f_equal; now apply Z.eqb_eq.
Qed.

(** On configs with pairwise different keys, nothing is dropped as a
    duplicate. *)
Lemma filter_unique_configs_NoDup configs filter_fn :
  NoDup (map sweep_key configs) ->
  _filter_unique_configs configs filter_fn = filter filter_fn configs.
Proof.
  induction configs as [|c configs IH] using rev_ind; intro Hnd;
    [reflexivity|].
  rewrite map_app in Hnd. simpl in Hnd.
  apply NoDup_remove in Hnd as [Hnd Hc]. rewrite app_nil_r in Hnd, Hc.
  rewrite filter_unique_configs_snoc, filter_snoc, (IH Hnd). cbv zeta.
  destruct (filter_fn c); [|simpl; now rewrite app_nil_r].
  destruct (set_mem c (filter filter_fn configs)) eqn:Hmem; [|reflexivity].
  exfalso. apply Hc. unfold set_mem in Hmem.
  apply existsb_exists in Hmem as (x & Hx & Heq).
  apply filter_In in Hx as [Hx _].
  rewrite (ProblemConfig_eqb_key c x Heq). now apply in_map.
Qed.

Lemma seed_map_sweep_key (l : list ProblemConfig) :
  map seed l = map snd (map sweep_key l).
Proof. rewrite map_map. reflexivity. Qed.

Lemma counted_new_keys P s cs0 st :
  counted P s cs0 st ->
  exists new,
    snd st = cs0 ++ new /\ NoDup (map sweep_key new) /\ Forall P new.
Proof.
  intros (new & Hsnd & _ & Hseeds & HP). exists new.
  repeat split; try assumption.
  apply (NoDup_map_inv snd). rewrite <- seed_map_sweep_key, Hseeds.
  apply NoDup_map_injective; [intros x y; lia | apply seq_NoDup].
Qed.

(** Two runs of the loops under different values of [tau]. *)
Lemma two_runs_keys_NoDup t t' tau1 tau10 s st1 st10 :
  tau1 <> tau10 ->
  counted (classification_defaults t tau1) s [] st1 ->
  counted (classification_defaults t' tau10) s (snd st1) st10 ->
  NoDup (map sweep_key (snd st10)).
Proof.
  intros Hne H1 H10.
  apply counted_new_keys in H1 as (new1 & Hs1 & Hnd1 & HP1).
  apply counted_new_keys in H10 as (new10 & Hs10 & Hnd10 & HP10).
  simpl in Hs1. rewrite Hs10, Hs1, map_app.
  apply NoDup_app; [exact Hnd1 | exact Hnd10 |].
  intros k Hk1 Hk10.
  apply in_map_iff in Hk1 as (c1 & <- & Hc1).
  apply in_map_iff in Hk10 as (c10 & Heq & Hc10).
  rewrite Forall_forall in HP1, HP10.
  destruct (HP1 c1 Hc1) as (_ & _ & _ & _ & _ & _ & Ht1).
  destruct (HP10 c10 Hc10) as (_ & _ & _ & _ & _ & _ & Ht10).
  unfold sweep_key in Heq. injection Heq as Ht _. congruence.
Qed.

(** ** Theorems *)

(** C6: [combined_sweep()] has exactly 36 configs and is [sgld_sweep()]
  followed by [momentum_sgld_sweep()]; each part has 18 configs, enumerated
  with the learning rate in [5e-4, 1e-3, 5e-3] as the outer loop and the
  prior variance in [0.05, 0.1, 0.5, 1, 2, 10] as the inner loop, always with
  [adaptive_prior_variance = True]; the momentum part also passes
  [alg_temperature = 1] and [momentum_decay = 0.9], which the plain part
  leaves at their defaults. *)
Theorem combined_sweep_spec :
  Sgmcmc.sgld_sweep =
    flat_map (fun learning_rate =>
      map (fun prior_variance =>
             Sgmcmc.mkSGMCMCConfig learning_rate prior_variance true
               None None)
        [0.05; 0.1; 0.5; 1; 2; 10]%float)
      [5e-4; 1e-3; 5e-3]%float
  /\ Sgmcmc.momentum_sgld_sweep =
    flat_map (fun learning_rate =>
      map (fun prior_variance =>
             Sgmcmc.mkSGMCMCConfig learning_rate prior_variance true
               (Some 1%float) (Some 0.9%float))
        [0.05; 0.1; 0.5; 1; 2; 10]%float)
      [5e-4; 1e-3; 5e-3]%float
  /\ Sgmcmc.combined_sweep = Sgmcmc.sgld_sweep ++ Sgmcmc.momentum_sgld_sweep
  /\ map (fun c => (Sgmcmc.learning_rate c, Sgmcmc.prior_variance c))
       (firstn 18 Sgmcmc.combined_sweep) =
     [ (5e-4, 0.05); (5e-4, 0.1); (5e-4, 0.5); (5e-4, 1); (5e-4, 2);
       (5e-4, 10);
       (1e-3, 0.05); (1e-3, 0.1); (1e-3, 0.5); (1e-3, 1); (1e-3, 2);
       (1e-3, 10);
       (5e-3, 0.05); (5e-3, 0.1); (5e-3, 0.5); (5e-3, 1); (5e-3, 2);
       (5e-3, 10) ]%float
  /\ map (fun c => (Sgmcmc.learning_rate c, Sgmcmc.prior_variance c))
       (skipn 18 Sgmcmc.combined_sweep) =
     map (fun c => (Sgmcmc.learning_rate c, Sgmcmc.prior_variance c))
       (firstn 18 Sgmcmc.combined_sweep)
  /\ length Sgmcmc.combined_sweep = 36%nat
  /\ length Sgmcmc.sgld_sweep = 18%nat
  /\ length Sgmcmc.momentum_sgld_sweep = 18%nat
  /\ Forall (fun c =>
       Sgmcmc.adaptive_prior_variance c = true
       /\ Sgmcmc.alg_temperature c = None
       /\ Sgmcmc.momentum_decay c = None)
     Sgmcmc.sgld_sweep
  /\ Forall (fun c =>
       Sgmcmc.adaptive_prior_variance c = true
       /\ Sgmcmc.alg_temperature c = Some 1%float
       /\ Sgmcmc.momentum_decay c = Some 0.9%float)
     Sgmcmc.momentum_sgld_sweep.
Proof.
  do 8 (split; [reflexivity|]).
  split; repeat constructor.
Qed.

(** C3: for every [num_seed >= 0] and [initial_seed],
    [regression_sweep(num_seed, initial_seed)] has exactly [27 * num_seed]
    entries, with the keys ['regression/0'] to
    ['regression/{27*num_seed-1}'] in order; the configs follow the nested
    loops over [input_dim], [data_ratio], [noise_std] and the seed
    increments; and the [i]-th config has [seed = initial_seed + 1 + i],
    [num_train = data_ratio * input_dim], [num_classes = 1], [tau = 1],
    [layers = 1] and [num_enn_samples = 100]. *)
Theorem regression_sweep_spec (num_seed initial_seed : Z) :
  0 <= num_seed ->
  let d := regression_sweep num_seed initial_seed in
  Z.of_nat (length d) = 27 * num_seed
  /\ keys d =
     map (fun i => ("regression/" ++ str i)%string)
       (seq 0 (Z.to_nat (27 * num_seed)))
  /\ map prior_knowledge (values d) =
     flat_map (fun input_dim =>
       flat_map (fun data_ratio =>
         flat_map (fun noise_std =>
           map (fun _ =>
                  mkPriorKnowledge input_dim (data_ratio * input_dim) 1 1 1
                    (Some noise_std) None)
             (range num_seed))
           [0.01; 0.1; 1]%float)
         [1; 10; 100])
       [1; 10; 100]
  /\ (forall i, (i < Z.to_nat (27 * num_seed))%nat ->
       exists c,
         dict_get ("regression/" ++ str i)%string d = Some c
         /\ nth_error (values d) i = Some c
         /\ seed c = initial_seed + 1 + Z.of_nat i
         /\ num_classes (prior_knowledge c) = 1
         /\ tau (prior_knowledge c) = 1
         /\ layers (prior_knowledge c) = 1
         /\ num_enn_samples c = 100
         /\ exists data_ratio,
              In data_ratio [1; 10; 100]
              /\ In (input_dim (prior_knowledge c)) [1; 10; 100]
              /\ num_train (prior_knowledge c) =
                 data_ratio * input_dim (prior_knowledge c))
  /\ (0 < num_seed ->
      (exists c,
         dict_get "regression/0" d = Some c /\ seed c = initial_seed + 1)
      /\ (exists c,
            dict_get "regression/26" d = Some c
            /\ seed c = initial_seed + 27)).
Proof.
  intros Hn d.
  assert (Hvals := regression_sweep_values num_seed initial_seed).
  fold d in Hvals.
  assert (Hlen : length (values d) = (27 * Z.to_nat num_seed)%nat)
    by (rewrite Hvals, regression_loops_length; reflexivity).
  assert (Hk : Z.to_nat (27 * num_seed) = (27 * Z.to_nat num_seed)%nat)
    by lia.
  assert (Hgrid : map prior_knowledge (values d) = regression_grid num_seed)
    by (rewrite Hvals, regression_loops_emit; reflexivity).
  assert (Hget : forall i, (i < Z.to_nat (27 * num_seed))%nat ->
       exists c,
         dict_get (problem_id "regression" i) d = Some c
         /\ nth_error (values d) i = Some c
         /\ seed c = initial_seed + 1 + Z.of_nat i
         /\ num_classes (prior_knowledge c) = 1
         /\ tau (prior_knowledge c) = 1
         /\ layers (prior_knowledge c) = 1
         /\ num_enn_samples c = 100
         /\ exists data_ratio,
              In data_ratio [1; 10; 100]
              /\ In (input_dim (prior_knowledge c)) [1; 10; 100]
              /\ num_train (prior_knowledge c) =
                 data_ratio * input_dim (prior_knowledge c)).
  { intros i Hi. rewrite Hk in Hi.
    destruct (counted_nth regression_defaults initial_seed []
                (regression_loops num_seed (initial_seed, [])) _ i
                (regression_loops_counted _ _ _)
                (regression_loops_length _ _) Hi)
      as (c & Hnth & Hseed & Hdef).
    simpl in Hnth. rewrite <- Hvals in Hnth.
    exists c. split; [|split; [exact Hnth|split; [exact Hseed|]]].
    + unfold d, regression_sweep.
      rewrite dict_comprehension_get by apply problem_id_inj.
      rewrite map_id. fold (regression_sweep num_seed initial_seed) in Hvals.
      rewrite <- Hvals. exact Hnth.
    + assert (Hin : In (prior_knowledge c) (regression_grid num_seed)).
      { rewrite <- Hgrid. apply in_map. eapply nth_error_In, Hnth. }
      apply regression_grid_In in Hin as (H1 & H2 & H3 & H4).
      destruct Hdef as (_ & _ & _ & Henn & _).
      repeat (split; [assumption|]). exact H4. }
  split; [|split; [|split; [|split]]].
  - unfold values in Hlen. rewrite length_map in Hlen. lia.
  - transitivity
      (map (problem_id "regression") (seq 0 (Z.to_nat (27 * num_seed))));
      [|apply map_ext; reflexivity].
    unfold d, regression_sweep.
    rewrite dict_comprehension_keys by apply problem_id_inj.
    fold (regression_sweep num_seed initial_seed) in Hvals.
    rewrite <- Hvals. fold d. now rewrite Hlen, Hk.
  - exact Hgrid.
  - exact Hget.
  - intro Hpos. split.
    + destruct (Hget 0%nat) as (c & Hc & _ & Hs & _); [lia|].
      exists c. split; [exact Hc | lia].
    + destruct (Hget 26%nat) as (c & Hc & _ & Hs & _); [lia|].
      exists c. split; [exact Hc | lia].
Qed.

Lemma regression_sweep_spec_witness :
  0 <= 1
  /\ Z.of_nat (length (regression_sweep 1 5)) = 27 * 1
  /\ keys (regression_sweep 1 5) =
     [ "regression/0"; "regression/1"; "regression/2"; "regression/3";
       "regression/4"; "regression/5"; "regression/6"; "regression/7";
       "regression/8"; "regression/9"; "regression/10";
       "regression/11"; "regression/12"; "regression/13";
       "regression/14"; "regression/15"; "regression/16";
       "regression/17"; "regression/18"; "regression/19";
       "regression/20"; "regression/21"; "regression/22";
       "regression/23"; "regression/24"; "regression/25";
       "regression/26" ]%string.
Proof.
  split; [lia|].
  split; apply (regression_sweep_spec 1 5); lia.
Defined.

(** C4: for every [num_seed >= 0] and [initial_seed],
    [classification_sweep(num_seed, initial_seed)] has exactly
    [72 * num_seed] entries, with the keys ['classification/0'] to
    ['classification/{72*num_seed-1}'] in order; the configs follow the
    nested loops over [tau], [input_dim], [data_ratio], [temperature] and the
    seed increments; and every config has [num_classes = 2], [layers = 2],
    [num_train = data_ratio * input_dim] and
    [test_distribution = generative.make_polyadic_sampler]. *)
Theorem classification_sweep_spec (num_seed initial_seed : Z) :
  0 <= num_seed ->
  let d := classification_sweep num_seed initial_seed in
  Z.of_nat (length d) = 72 * num_seed
  /\ keys d =
     map (fun i => ("classification/" ++ str i)%string)
       (seq 0 (Z.to_nat (72 * num_seed)))
  /\ (forall i, (i < Z.to_nat (72 * num_seed))%nat ->
       exists c,
         dict_get ("classification/" ++ str i)%string d = Some c
         /\ nth_error (values d) i = Some c)
  /\ (0 < num_seed ->
      (exists c,
         dict_get "classification/0" d = Some c
         /\ nth_error (values d) 0 = Some c)
      /\ (exists c,
            dict_get "classification/71" d = Some c
            /\ nth_error (values d) 71 = Some c))
  /\ map prior_knowledge (values d) =
     flat_map (fun tau =>
       flat_map (fun input_dim =>
         flat_map (fun data_ratio =>
           flat_map (fun temperature =>
             map (fun _ =>
                    mkPriorKnowledge input_dim (data_ratio * input_dim)
                      2 tau 2 None (Some temperature))
               (range num_seed))
             [0.01; 0.1; 0.5]%float)
           [1; 10; 100; 1000])
         [2; 10; 100])
       [1; 10]
  /\ Forall (fun c =>
       num_classes (prior_knowledge c) = 2
       /\ layers (prior_knowledge c) = 2
       /\ test_distribution c = make_polyadic_sampler
       /\ exists data_ratio,
            In data_ratio [1; 10; 100; 1000]
            /\ In (input_dim (prior_knowledge c)) [2; 10; 100]
            /\ num_train (prior_knowledge c) =
               data_ratio * input_dim (prior_knowledge c))
     (values d).
Proof.
  intros Hn d.
  assert (Hvals := classification_sweep_values num_seed initial_seed).
  fold d in Hvals.
  assert (Hlen : length (values d) = (72 * Z.to_nat num_seed)%nat).
  { rewrite Hvals, classification_loops_length. cbn [snd].
    rewrite classification_loops_length. cbn [snd length]. lia. }
  assert (Hgrid : map prior_knowledge (values d) =
                  classification_grid num_seed 1
                  ++ classification_grid num_seed 10).
  { rewrite Hvals, classification_loops_emit. cbn [snd].
    rewrite classification_loops_emit. reflexivity. }
  assert (Hget : forall i, (i < Z.to_nat (72 * num_seed))%nat ->
       exists c,
         dict_get (problem_id "classification" i) d = Some c
         /\ nth_error (values d) i = Some c).
  { intros i Hi. unfold d, classification_sweep. cbv zeta.
    apply dict_comprehension_lookup; [apply problem_id_inj|].
    assert (Hl := Hlen). unfold d, classification_sweep in Hl. cbv zeta in Hl.
    rewrite dict_comprehension_values, length_map in Hl
      by apply problem_id_inj.
    rewrite Hl. lia. }
  split; [|split; [|split; [|split; [|split]]]].
  - unfold values in Hlen. rewrite length_map in Hlen. lia.
  - transitivity
      (map (problem_id "classification")
         (seq 0 (Z.to_nat (72 * num_seed))));
      [|apply map_ext; reflexivity].
    unfold d, classification_sweep.
    rewrite dict_comprehension_keys by apply problem_id_inj.
    fold (classification_sweep num_seed initial_seed) in Hvals.
    change (for_each [1; 10] _ _) with
      (snd (classification_loops num_seed 10
         (initial_seed,
          snd (classification_loops num_seed 1 (initial_seed, []))))).
    rewrite <- Hvals. fold d. rewrite Hlen. f_equal. f_equal. lia.
  - exact Hget.
  - intro Hpos. split.
    + destruct (Hget 0%nat) as (c & Hc & Hv); [lia|].
      exists c. split; [exact Hc | exact Hv].
    + destruct (Hget 71%nat) as (c & Hc & Hv); [lia|].
      exists c. split; [exact Hc | exact Hv].
  - rewrite Hgrid, flat_map_pair. reflexivity.
  - apply Forall_map_In in Hgrid.
    assert (Hdist : Forall (fun c => test_distribution c
                                     = make_polyadic_sampler) (values d)).
    { rewrite Hvals.
      eapply counted_Forall;
        [apply classification_loops_counted | | intros c Hc; apply Hc].
      eapply counted_Forall;
        [apply classification_loops_counted | constructor
        | intros c Hc; apply Hc]. }
    rewrite Forall_forall in *. intros c Hc.
    specialize (Hgrid c Hc). specialize (Hdist c Hc).
    apply in_app_or in Hgrid.
    destruct Hgrid as [Hin|Hin];
      apply classification_grid_In in Hin as (H1 & H2 & H3);
      repeat (split; [assumption|]); exact H3.
Qed.

Lemma classification_sweep_spec_witness :
  0 <= 1
  /\ Z.of_nat (length (classification_sweep 1 3)) = 72 * 1
  /\ keys (classification_sweep 1 3) =
     [ "classification/0"; "classification/1"; "classification/2";
       "classification/3"; "classification/4"; "classification/5";
       "classification/6"; "classification/7"; "classification/8";
       "classification/9"; "classification/10"; "classification/11";
       "classification/12"; "classification/13"; "classification/14";
       "classification/15"; "classification/16"; "classification/17";
       "classification/18"; "classification/19"; "classification/20";
       "classification/21"; "classification/22"; "classification/23";
       "classification/24"; "classification/25"; "classification/26";
       "classification/27"; "classification/28"; "classification/29";
       "classification/30"; "classification/31"; "classification/32";
       "classification/33"; "classification/34"; "classification/35";
       "classification/36"; "classification/37"; "classification/38";
       "classification/39"; "classification/40"; "classification/41";
       "classification/42"; "classification/43"; "classification/44";
       "classification/45"; "classification/46"; "classification/47";
       "classification/48"; "classification/49"; "classification/50";
       "classification/51"; "classification/52"; "classification/53";
       "classification/54"; "classification/55"; "classification/56";
       "classification/57"; "classification/58"; "classification/59";
       "classification/60"; "classification/61"; "classification/62";
       "classification/63"; "classification/64"; "classification/65";
       "classification/66"; "classification/67"; "classification/68";
       "classification/69"; "classification/70"; "classification/71" ]%string.
Proof.
  split; [lia|].
  split; apply (classification_sweep_spec 1 3); lia.
Defined.

(** C9: in [classification_sweep] and [classification_2d_sweep] the seed
    counter restarts from [initial_seed] in each [tau] iteration, so the
    [k]-th config generated under [tau = 1] and the [k]-th generated under
    [tau = 10] have the same seed, [initial_seed + 1 + k]; hence, as soon as
    the sweep is not empty, its seeds are not pairwise distinct, while those
    of [regression_sweep] always are. *)
Theorem classification_seed_reset (num_seed initial_seed : Z) :
  let n := Z.to_nat num_seed in
  let cls := values (classification_sweep num_seed initial_seed) in
  let c2d := values (classification_2d_sweep num_seed initial_seed) in
  (forall k, (k < 36 * n)%nat ->
     exists c1 c10,
       nth_error cls k = Some c1
       /\ nth_error cls (36 * n + k) = Some c10
       /\ tau (prior_knowledge c1) = 1 /\ tau (prior_knowledge c10) = 10
       /\ seed c1 = initial_seed + 1 + Z.of_nat k
       /\ seed c10 = seed c1)
  /\ (forall k, (k < 21 * n)%nat ->
     exists c1 c10,
       nth_error c2d k = Some c1
       /\ nth_error c2d (21 * n + k) = Some c10
       /\ tau (prior_knowledge c1) = 1 /\ tau (prior_knowledge c10) = 10
       /\ seed c1 = initial_seed + 1 + Z.of_nat k
       /\ seed c10 = seed c1)
  /\ (0 < num_seed ->
      ~ NoDup (map seed cls) /\ ~ NoDup (map seed c2d))
  /\ NoDup (map seed (values (regression_sweep num_seed initial_seed))).
Proof.
  intros n cls c2d.
  assert (Hcls : forall k, (k < 36 * n)%nat ->
     exists c1 c10,
       nth_error cls k = Some c1
       /\ nth_error cls (36 * n + k) = Some c10
       /\ tau (prior_knowledge c1) = 1 /\ tau (prior_knowledge c10) = 10
       /\ seed c1 = initial_seed + 1 + Z.of_nat k
       /\ seed c10 = seed c1).
  { intros k Hk. unfold cls. rewrite classification_sweep_values.
    destruct (two_runs_same_seed _ _ initial_seed _ _ (36 * n) k
                (classification_loops_counted num_seed 1 initial_seed [])
                (classification_loops_length _ _ _)
                (classification_loops_counted num_seed 10 initial_seed _)
                ltac:(rewrite classification_loops_length; cbn [snd];
                       rewrite classification_loops_length; cbn [snd length];
                       lia) Hk)
      as (c1 & c10 & H1 & H10 & Hp1 & Hp10 & Hs1 & Hs10).
    exists c1, c10. repeat split; try assumption; [apply Hp1 | apply Hp10]. }
  assert (Hc2d : forall k, (k < 21 * n)%nat ->
     exists c1 c10,
       nth_error c2d k = Some c1
       /\ nth_error c2d (21 * n + k) = Some c10
       /\ tau (prior_knowledge c1) = 1 /\ tau (prior_knowledge c10) = 10
       /\ seed c1 = initial_seed + 1 + Z.of_nat k
       /\ seed c10 = seed c1).
  { intros k Hk. unfold c2d. rewrite classification_2d_sweep_values.
    destruct (two_runs_same_seed _ _ initial_seed _ _ (21 * n) k
                (classification_2d_loops_counted num_seed 1 initial_seed [])
                (classification_2d_loops_length _ _ _)
                (classification_2d_loops_counted num_seed 10 initial_seed _)
                ltac:(rewrite classification_2d_loops_length; cbn [snd];
                       rewrite classification_2d_loops_length;
                       cbn [snd length]; lia) Hk)
      as (c1 & c10 & H1 & H10 & Hp1 & Hp10 & Hs1 & Hs10).
    exists c1, c10. repeat split; try assumption; [apply Hp1 | apply Hp10]. }
  split; [exact Hcls|]. split; [exact Hc2d|]. split.
  - intro Hpos. assert (Hn : (0 < n)%nat) by (unfold n; lia). split.
    + destruct (Hcls 0%nat ltac:(lia))
        as (c1 & c10 & H1 & H10 & _ & _ & _ & Heq).
      exact (repeated_seed_not_NoDup cls (36 * n) c1 c10
               ltac:(lia) H1 H10 Heq).
    + destruct (Hc2d 0%nat ltac:(lia))
        as (c1 & c10 & H1 & H10 & _ & _ & _ & Heq).
      exact (repeated_seed_not_NoDup c2d (21 * n) c1 c10
               ltac:(lia) H1 H10 Heq).
  - rewrite regression_sweep_values.
    rewrite (counted_seeds _ _ _ (regression_loops_counted _ _ _)).
    apply NoDup_map_injective; [intros x y; lia | apply seq_NoDup].
Qed.

Lemma classification_seed_reset_witness :
  0 < 1
  /\ ~ NoDup (map seed (values (classification_sweep 1 0)))
  /\ ~ NoDup (map seed (values (classification_2d_sweep 1 0)))
  /\ exists c1 c10,
       nth_error (values (classification_sweep 1 0)) 35 = Some c1
       /\ nth_error (values (classification_sweep 1 0)) (36 * 1 + 35)
          = Some c10
       /\ tau (prior_knowledge c1) = 1 /\ tau (prior_knowledge c10) = 10
       /\ seed c1 = 0 + 1 + Z.of_nat 35
       /\ seed c10 = seed c1.
Proof.
  split; [lia|].
  split; [apply (classification_seed_reset 1 0); lia|].
  split; [apply (classification_seed_reset 1 0); lia|].
  apply (proj1 (classification_seed_reset 1 0) 35%nat). simpl. lia.
Defined.

(** C10: for every index [i], the config of [enn_paper_sweep()] at key
    ['enn_paper/{i}'] is the config of [regression_sweep()] at key
    ['regression/{i}'] with [epistemic_only] replaced by [True] and every
    other field unchanged; both keys exist exactly for [i < 270]. *)
Theorem enn_paper_sweep_spec (i : nat) :
  dict_get (problem_id "enn_paper" i) enn_paper_sweep =
  option_map (replace_epistemic_only true)
    (dict_get (problem_id "regression" i) (regression_sweep 10 0))
  /\ (forall c',
        dict_get (problem_id "enn_paper" i) enn_paper_sweep = Some c' ->
        exists c,
          dict_get (problem_id "regression" i) (regression_sweep 10 0)
          = Some c
          /\ epistemic_only c' = true
          /\ prior_knowledge c' = prior_knowledge c
          /\ seed c' = seed c
          /\ logit_ctor c' = logit_ctor c
          /\ test_distribution c' = test_distribution c
          /\ num_test_seeds c' = num_test_seeds c
          /\ num_enn_samples c' = num_enn_samples c
          /\ num_test_cache c' = num_test_cache c)
  /\ ((i < 270)%nat <->
      exists c',
        dict_get (problem_id "enn_paper" i) enn_paper_sweep = Some c').
Proof.
  assert (Heq :
    dict_get (problem_id "enn_paper" i) enn_paper_sweep =
    option_map (replace_epistemic_only true)
      (dict_get (problem_id "regression" i) (regression_sweep 10 0))).
  { unfold enn_paper_sweep.
    rewrite dict_comprehension_get by apply problem_id_inj.
    rewrite regression_sweep_values. unfold regression_sweep.
    rewrite dict_comprehension_get by apply problem_id_inj.
    now rewrite map_id, nth_error_map. }
  split; [exact Heq|]. split.
  - intros c' Hc'. rewrite Heq in Hc'.
    destruct (dict_get (problem_id "regression" i) (regression_sweep 10 0))
      as [c|]; [|discriminate].
    injection Hc' as <-. exists c. repeat split.
  - unfold enn_paper_sweep.
    rewrite dict_comprehension_get by apply problem_id_inj.
    rewrite regression_sweep_values.
    assert (Hlen : length (map (replace_epistemic_only true)
                     (snd (regression_loops 10 (0, [])))) = 270%nat)
      by (rewrite length_map, regression_loops_length; reflexivity).
    rewrite <- Hlen, <- nth_error_Some. split.
    + intro H. destruct (nth_error _ i) as [c'|]; [now exists c'|congruence].
    + intros (c' & ->). discriminate.
Qed.

Lemma enn_paper_sweep_spec_witness :
  (3 < 270)%nat
  /\ exists c',
       dict_get (problem_id "enn_paper" 3) enn_paper_sweep = Some c'.
Proof.
  split; [lia|]. apply (enn_paper_sweep_spec 3). lia.
Defined.

(** C5: [_filter_unique_configs] keeps, in their order, only configs that
    pass the filter, loses no passing config except to an equal one already
    kept, and keeps no config equal to one kept before it, so that the
    result has no repetition; the reduced test sweeps are the [num_seed = 1]
    full sweeps so filtered: [regression_test_sweep()] has exactly the entry
    ['regression_test/0'], [classification_test_sweep()] has exactly 4
    entries and [classification_2d_test_sweep()] exactly 7
    ([enn_paper_test_sweep()], which also replaces [epistemic_only],
    has 9). *)
Theorem test_sweeps_spec :
  (forall configs filter_fn,
     Forall nan_free configs ->
     let r := _filter_unique_configs configs filter_fn in
     subseq r (filter filter_fn configs)
     /\ (forall c, In c configs -> filter_fn c = true ->
           exists c', In c' r /\ ProblemConfig_eqb c c' = true)
     /\ (forall l1 c l2, r = l1 ++ c :: l2 ->
           forall c', In c' l1 -> ProblemConfig_eqb c c' = false)
     /\ NoDup r)
  /\ (forall filter_fn, _filter_unique_configs [] filter_fn = [])
  /\ (forall configs c filter_fn,
        Forall nan_free (configs ++ [c]) ->
        _filter_unique_configs (configs ++ [c]) filter_fn =
        let r := _filter_unique_configs configs filter_fn in
        if filter_fn c && negb (existsb (ProblemConfig_eqb c) r)
        then r ++ [c] else r)
  /\ (let c1 := ProblemConfig_init
                  (mkPriorKnowledge 10 10 1 1 1 (Some 0.1%float) None) 1 in
      let c2 := ProblemConfig_init
                  (mkPriorKnowledge 10 10 1 1 1 (Some 0.1%float) None) 2 in
      let z1 := ProblemConfig_init
                  (mkPriorKnowledge 10 10 1 1 1 (Some 0%float) None) 1 in
      let z2 := ProblemConfig_init
                  (mkPriorKnowledge 10 10 1 1 1 (Some (-0)%float) None) 1 in
      _filter_unique_configs [c1; c2; c1; c2; c1] (fun _ => true) = [c1; c2]
      /\ _filter_unique_configs [c1; c2; c1; c2]
           (fun x => seed x =? 2) = [c2]
      /\ _filter_unique_configs [z1; z2; c1; z1] (fun _ => true) = [z1; c1])
  /\ regression_test_sweep =
     [("regression_test/0"%string,
       with_num_enn_samples 100
         (ProblemConfig_init
            (mkPriorKnowledge 10 10 1 1 1 (Some 0.1%float) None) 11))]
  /\ values regression_test_sweep =
     filter (fun x =>
               float_is (noise_std (prior_knowledge x)) 0.1
               && (input_dim (prior_knowledge x) =? 10)
               && (num_train (prior_knowledge x) =? 10)
               && (tau (prior_knowledge x) =? 1))
       (values (regression_sweep 1 0))
  /\ length classification_test_sweep = 4%nat
  /\ keys classification_test_sweep =
     [ "classification_test/0"; "classification_test/1";
       "classification_test/2"; "classification_test/3" ]%string
  /\ values classification_test_sweep =
     filter (fun x =>
               float_is (temperature (prior_knowledge x)) 0.01
               && (tau (prior_knowledge x) =? 1)
               && (input_dim (prior_knowledge x) =? 2))
       (values (classification_sweep 1 0))
  /\ length classification_2d_test_sweep = 7%nat
  /\ keys classification_2d_test_sweep =
     [ "classification_2d_test/0"; "classification_2d_test/1";
       "classification_2d_test/2"; "classification_2d_test/3";
       "classification_2d_test/4"; "classification_2d_test/5";
       "classification_2d_test/6" ]%string
  /\ values classification_2d_test_sweep =
     filter (fun x =>
               float_is (temperature (prior_knowledge x)) 0.01
               && (tau (prior_knowledge x) =? 1))
       (values (classification_2d_sweep 1 0))
  /\ length enn_paper_test_sweep = 9%nat
  /\ keys enn_paper_test_sweep =
     [ "enn_paper_test/0"; "enn_paper_test/1"; "enn_paper_test/2";
       "enn_paper_test/3"; "enn_paper_test/4"; "enn_paper_test/5";
       "enn_paper_test/6"; "enn_paper_test/7"; "enn_paper_test/8" ]%string
  /\ values enn_paper_test_sweep =
     map (replace_epistemic_only true)
       (filter (fun x => float_is (noise_std (prior_knowledge x)) 0.1)
          (values (regression_sweep 1 0))).
Proof.
  split; [|split; [|split; [|split]]].
  - intros configs filter_fn Hnan r.
    destruct (filter_unique_configs_inv configs filter_fn)
      as (_ & Hsub & Hcov & Honce).
    assert (Hr : Forall nan_free r).
    { apply Forall_forall. intros c Hc.
      apply filter_unique_configs_In in Hc.
      revert c Hc. now apply Forall_forall. }
    split; [exact Hsub|]. split; [|split].
    + intros c Hin Hf. destruct (Hcov c Hin Hf) as [Hc|Hc]; [|exact Hc].
      exists c. split; [exact Hc|]. apply ProblemConfig_eqb_refl.
      revert c Hin Hf Hc. rewrite Forall_forall in Hnan.
      intros c Hin _ _. now apply Hnan.
    + intros l1 c l2 Heq. apply set_mem_false. exact (Honce l1 c l2 Heq).
    + apply kept_once_NoDup; [exact Honce | exact Hr].
  - reflexivity.
  - intros configs c filter_fn _. apply filter_unique_configs_snoc.
  - cbv zeta. split; [vm_compute; reflexivity|].
    split; vm_compute; reflexivity.
  - do 10 (split; [vm_compute; reflexivity|]). vm_compute. reflexivity.
Qed.

Lemma test_sweeps_spec_witness :
  let c := ProblemConfig_init
             (mkPriorKnowledge 2 3 2 1 2 None (Some 0.5%float)) 7 in
  let c' := ProblemConfig_init
              (mkPriorKnowledge 2 3 2 1 2 None (Some 0.5%float)) 8 in
  Forall nan_free [c; c'; c]
  /\ NoDup (_filter_unique_configs [c; c'; c] (fun _ => true))
  /\ _filter_unique_configs [c; c'; c] (fun _ => true) = [c; c'].
Proof.
  intros c c'.
  assert (H : Forall nan_free [c; c'; c])
    by (repeat constructor; reflexivity).
  split; [exact H|]. split; [|reflexivity].
  apply (proj1 test_sweeps_spec [c; c'; c] (fun _ => true) H).
Defined.

(** C8: [_merge_without_overwrite(sweeps)] raises [KeyError] if and only if
    some key occurs in two of the input dictionaries; otherwise it returns
    the dictionary whose items are those of all the sweeps, so that a key is
    mapped to a value exactly when one of the sweeps maps it to that value;
    and the module-level [SETTINGS] is built without error and maps every
    problem id of each of the eight component sweeps to that sweep's
    config. *)
Theorem merge_without_overwrite_spec :
  (forall (V : Type) (sweeps : list (dict V)),
     Forall dict_wf sweeps ->
     ((exists msg, _merge_without_overwrite sweeps = inl (KeyError msg))
      <-> shared_key sweeps)
     /\ (~ shared_key sweeps ->
         exists settings,
           _merge_without_overwrite sweeps = inr settings
           /\ settings = concat sweeps
           /\ dict_wf settings
           /\ forall k v,
                dict_get k settings = Some v <->
                exists sweep, In sweep sweeps /\ dict_get k sweep = Some v))
  /\ exists settings,
       SETTINGS = inr settings
       /\ length settings = 1341%nat
       /\ forall sweep, In sweep component_sweeps ->
          forall k v, dict_get k sweep = Some v ->
                      dict_get k settings = Some v.
Proof.
  assert (Hunion : forall (V : Type) (sweeps : list (dict V)),
     Forall dict_wf sweeps -> ~ shared_key sweeps ->
     dict_wf (concat sweeps)
     /\ forall k v,
          dict_get k (concat sweeps) = Some v <->
          exists sweep, In sweep sweeps /\ dict_get k sweep = Some v).
  { intros V sweeps Hwf Hno.
    assert (Hall : dict_wf (concat sweeps)).
    { apply fresh_keys_nil_shared in Hno.
      exact (fresh_keys_NoDup sweeps [] Hwf (NoDup_nil _) Hno). }
    split; [exact Hall|]. intros k v. now apply In_concat_dict_get. }
  split.
  - intros V sweeps Hwf. split; [now apply merge_without_overwrite_raises|].
    intro Hno. exists (concat sweeps).
    destruct (Hunion V sweeps Hwf Hno) as [Hall Hget].
    repeat split; try assumption; try apply Hget.
    now apply merge_without_overwrite_ok.
  - assert (Hval : SETTINGS = inr (concat component_sweeps))
      by (vm_compute; reflexivity).
    assert (Hmerge : _merge_without_overwrite component_sweeps
                     = inr (concat component_sweeps))
      by (vm_compute; reflexivity).
    assert (Hno : ~ shared_key component_sweeps).
    { intro Hshared.
      apply (merge_without_overwrite_raises _ component_sweeps_wf)
        in Hshared as (msg & Hraise).
      rewrite Hmerge in Hraise. discriminate. }
    exists (concat component_sweeps). split; [exact Hval|]. split.
    + vm_compute. reflexivity.
    + intros sweep Hin k v Hget.
      apply (Hunion _ _ component_sweeps_wf Hno).
      exists sweep. split; assumption.
Qed.

Lemma merge_without_overwrite_spec_witness :
  let sweeps := [[("a"%string, 1)]; [("b"%string, 2)]; [("a"%string, 3)]] in
  Forall dict_wf sweeps
  /\ shared_key sweeps
  /\ exists msg, _merge_without_overwrite sweeps = inl (KeyError msg).
Proof.
  intro sweeps.
  assert (Hwf : Forall dict_wf sweeps).
  { repeat constructor; simpl; intros []. }
  assert (Hshared : shared_key sweeps).
  { exists 0%nat, 2%nat, [("a"%string, 1)], [("a"%string, 3)], "a"%string.
    repeat split; simpl; auto. }
  split; [exact Hwf|]. split; [exact Hshared|].
  apply (proj1 merge_without_overwrite_spec Z sweeps Hwf). exact Hshared.
Defined.

(** ** Further properties of the sweeps *)

(** X1: for every [num_seed >= 0] and [initial_seed],
    [classification_2d_sweep(num_seed, initial_seed)] has exactly
    [42 * num_seed] entries, with the keys ['classification_2d/0'] onwards in
    order; the configs follow the nested loops over [tau], [num_train],
    [temperature] and the seed increments; and every config has
    [input_dim = 2], [num_classes = 2], [layers = 2] and the default test
    distribution and sample counts. *)
Theorem classification_2d_sweep_spec (num_seed initial_seed : Z) :
  0 <= num_seed ->
  let d := classification_2d_sweep num_seed initial_seed in
  Z.of_nat (length d) = 42 * num_seed
  /\ keys d =
     map (fun i => ("classification_2d/" ++ str i)%string)
       (seq 0 (Z.to_nat (42 * num_seed)))
  /\ (forall i, (i < Z.to_nat (42 * num_seed))%nat ->
       exists c,
         dict_get ("classification_2d/" ++ str i)%string d = Some c
         /\ nth_error (values d) i = Some c)
  /\ (0 < num_seed ->
      (exists c,
         dict_get "classification_2d/0" d = Some c
         /\ nth_error (values d) 0 = Some c)
      /\ (exists c,
            dict_get "classification_2d/41" d = Some c
            /\ nth_error (values d) 41 = Some c))
  /\ map prior_knowledge (values d) =
     flat_map (fun tau =>
       flat_map (fun num_train =>
         flat_map (fun temperature =>
           map (fun _ =>
                  mkPriorKnowledge 2 num_train 2 tau 2
                    None (Some temperature))
             (range num_seed))
           [0.01; 0.1; 0.5]%float)
         [1; 3; 10; 30; 100; 300; 1000])
       [1; 10]
  /\ Forall (fun c =>
       logit_ctor c = None
       /\ test_distribution c = make_gaussian_sampler
       /\ num_test_seeds c = 1000 /\ num_enn_samples c = 1000
       /\ num_test_cache c = 1000 /\ epistemic_only c = false)
     (values d).
Proof.
  intros Hn d.
  assert (Hvals := classification_2d_sweep_values num_seed initial_seed).
  fold d in Hvals.
  assert (Hlen : length (values d) = (42 * Z.to_nat num_seed)%nat).
  { rewrite Hvals, classification_2d_loops_length. cbn [snd].
    rewrite classification_2d_loops_length. cbn [snd length]. lia. }
  assert (Hget : forall i, (i < Z.to_nat (42 * num_seed))%nat ->
       exists c,
         dict_get (problem_id "classification_2d" i) d = Some c
         /\ nth_error (values d) i = Some c).
  { intros i Hi. unfold d, classification_2d_sweep. cbv zeta.
    apply dict_comprehension_lookup; [apply problem_id_inj|].
    assert (Hl := Hlen).
    unfold d, classification_2d_sweep in Hl. cbv zeta in Hl.
    rewrite dict_comprehension_values, length_map in Hl
      by apply problem_id_inj.
    rewrite Hl. lia. }
  split; [|split; [|split; [|split; [|split]]]].
  - unfold values in Hlen. rewrite length_map in Hlen. lia.
  - transitivity
      (map (problem_id "classification_2d")
         (seq 0 (Z.to_nat (42 * num_seed))));
      [|apply map_ext; reflexivity].
    unfold d, classification_2d_sweep.
    rewrite dict_comprehension_keys by apply problem_id_inj.
    change (for_each [1; 10] _ _) with
      (snd (classification_2d_loops num_seed 10
         (initial_seed,
          snd (classification_2d_loops num_seed 1 (initial_seed, []))))).
    rewrite <- Hvals. rewrite Hlen. f_equal. f_equal. lia.
  - exact Hget.
  - intro Hpos. split.
    + destruct (Hget 0%nat) as (c & Hc & Hv); [lia|].
      exists c. split; [exact Hc | exact Hv].
    + destruct (Hget 41%nat) as (c & Hc & Hv); [lia|].
      exists c. split; [exact Hc | exact Hv].
  - rewrite Hvals, classification_2d_loops_emit. cbn [snd].
    rewrite classification_2d_loops_emit, flat_map_pair. reflexivity.
  - rewrite Hvals.
    eapply counted_Forall;
      [apply classification_2d_loops_counted | | ].
    + eapply counted_Forall;
        [apply classification_2d_loops_counted | constructor | ].
      intros c (H1 & H2 & H3 & H4 & H5 & H6 & _). repeat split; assumption.
    + intros c (H1 & H2 & H3 & H4 & H5 & H6 & _). repeat split; assumption.
Qed.

Lemma classification_2d_sweep_spec_witness :
  0 <= 1
  /\ Z.of_nat (length (classification_2d_sweep 1 0)) = 42 * 1
  /\ keys (classification_2d_sweep 1 0) =
     [ "classification_2d/0"; "classification_2d/1";
       "classification_2d/2"; "classification_2d/3";
       "classification_2d/4"; "classification_2d/5";
       "classification_2d/6"; "classification_2d/7";
       "classification_2d/8"; "classification_2d/9";
       "classification_2d/10"; "classification_2d/11";
       "classification_2d/12"; "classification_2d/13";
       "classification_2d/14"; "classification_2d/15";
       "classification_2d/16"; "classification_2d/17";
       "classification_2d/18"; "classification_2d/19";
       "classification_2d/20"; "classification_2d/21";
       "classification_2d/22"; "classification_2d/23";
       "classification_2d/24"; "classification_2d/25";
       "classification_2d/26"; "classification_2d/27";
       "classification_2d/28"; "classification_2d/29";
       "classification_2d/30"; "classification_2d/31";
       "classification_2d/32"; "classification_2d/33";
       "classification_2d/34"; "classification_2d/35";
       "classification_2d/36"; "classification_2d/37";
       "classification_2d/38"; "classification_2d/39";
       "classification_2d/40"; "classification_2d/41" ]%string.
Proof.
  split; [lia|].
  split; apply (classification_2d_sweep_spec 1 0); lia.
Defined.

(** X2: with [num_seed <= 0] the seed loop [range(num_seed)] is empty, and
    each of the three full sweeps returns the empty dictionary. *)
Theorem sweeps_empty_without_seeds (num_seed initial_seed : Z) :
  num_seed <= 0 ->
  regression_sweep num_seed initial_seed = []
  /\ classification_sweep num_seed initial_seed = []
  /\ classification_2d_sweep num_seed initial_seed = [].
Proof.
  intro H.
  unfold regression_sweep, regression_loops, classification_sweep,
    classification_loops, classification_2d_sweep, classification_2d_loops.
  rewrite (range_nonpositive num_seed H). repeat split.
Qed.

Lemma sweeps_empty_without_seeds_witness :
  -3 <= 0 /\ regression_sweep (-3) 5 = [].
Proof.
  split; [lia|]. apply (sweeps_empty_without_seeds (-3) 5). lia.
Defined.

(** X3: [initial_seed] only offsets the seeds: each full sweep has the same
    keys whatever [initial_seed] is, and its configs are those of the sweep
    from [initial_seed = 0] with [initial_seed] added to every seed. *)
Theorem initial_seed_offsets_seeds (num_seed initial_seed : Z) :
  (keys (regression_sweep num_seed initial_seed)
   = keys (regression_sweep num_seed 0)
   /\ values (regression_sweep num_seed initial_seed)
      = map (shift_seed initial_seed) (values (regression_sweep num_seed 0)))
  /\ (keys (classification_sweep num_seed initial_seed)
      = keys (classification_sweep num_seed 0)
      /\ values (classification_sweep num_seed initial_seed)
         = map (shift_seed initial_seed)
             (values (classification_sweep num_seed 0)))
  /\ (keys (classification_2d_sweep num_seed initial_seed)
      = keys (classification_2d_sweep num_seed 0)
      /\ values (classification_2d_sweep num_seed initial_seed)
         = map (shift_seed initial_seed)
             (values (classification_2d_sweep num_seed 0))).
Proof.
  assert (Hinit : forall cs,
            shifted initial_seed (0, cs)
              (initial_seed, map (shift_seed initial_seed) cs))
    by (intro cs; split; reflexivity).
  assert (Hkeys : forall name (l l' : list ProblemConfig),
            l = map (shift_seed initial_seed) l' ->
            keys (dict_comprehension (problem_id name) (fun v => v) l)
            = keys (dict_comprehension (problem_id name) (fun v => v) l')).
  { intros name l l' ->. apply dict_comprehension_keys_length.
    apply length_map. }
  assert (Hreg : snd (regression_loops num_seed (initial_seed, []))
                 = map (shift_seed initial_seed)
                     (snd (regression_loops num_seed (0, [])))).
  { apply (regression_loops_shifted num_seed initial_seed (0, [])
             (initial_seed, [])), (Hinit []). }
  assert (Hcls : forall tau cs,
            snd (classification_loops num_seed tau
                   (initial_seed, map (shift_seed initial_seed) cs))
            = map (shift_seed initial_seed)
                (snd (classification_loops num_seed tau (0, cs)))).
  { intros tau cs. apply (classification_loops_shifted num_seed tau
                            initial_seed (0, cs)), Hinit. }
  assert (Hc2d : forall tau cs,
            snd (classification_2d_loops num_seed tau
                   (initial_seed, map (shift_seed initial_seed) cs))
            = map (shift_seed initial_seed)
                (snd (classification_2d_loops num_seed tau (0, cs)))).
  { intros tau cs. apply (classification_2d_loops_shifted num_seed tau
                            initial_seed (0, cs)), Hinit. }
  split; [|split].
  - rewrite !regression_sweep_values. split; [|exact Hreg].
    unfold regression_sweep. now apply Hkeys.
  - rewrite !classification_sweep_values.
    assert (Hv : snd (classification_loops num_seed 10
                   (initial_seed,
                    snd (classification_loops num_seed 1 (initial_seed, []))))
                 = map (shift_seed initial_seed)
                     (snd (classification_loops num_seed 10
                        (0, snd (classification_loops num_seed 1 (0, [])))))).
    { rewrite <- Hcls. do 3 f_equal. exact (Hcls 1 []). }
    split; [|exact Hv]. unfold classification_sweep. now apply Hkeys.
  - rewrite !classification_2d_sweep_values.
    assert (Hv : snd (classification_2d_loops num_seed 10
                   (initial_seed,
                    snd (classification_2d_loops num_seed 1
                           (initial_seed, []))))
                 = map (shift_seed initial_seed)
                     (snd (classification_2d_loops num_seed 10
                        (0, snd (classification_2d_loops num_seed 1
                                   (0, [])))))).
    { rewrite <- Hc2d. do 3 f_equal. exact (Hc2d 1 []). }
    split; [|exact Hv]. unfold classification_2d_sweep. now apply Hkeys.
Qed.

(** X4: [_filter_unique_configs] is idempotent: filtering its own result
    with the same filter changes nothing. *)
Theorem filter_unique_configs_idempotent configs filter_fn :
  _filter_unique_configs (_filter_unique_configs configs filter_fn) filter_fn
  = _filter_unique_configs configs filter_fn.
Proof.
  apply filter_unique_configs_fixed;
    [apply filter_unique_configs_kept_once | apply filter_unique_configs_pass].
Qed.

(** X5: the filter of [_filter_unique_configs] can be applied beforehand:
    the result is that of the default filter [lambda _: True] on the configs
    that pass; and when no passing config equals an earlier passing one, the
    result is exactly the passing configs. *)
Theorem filter_unique_configs_filter_first configs filter_fn :
  _filter_unique_configs configs filter_fn
  = _filter_unique_configs (filter filter_fn configs) (fun _ => true)
  /\ (Forall nan_free configs ->
      (forall l1 c l2, filter filter_fn configs = l1 ++ c :: l2 ->
         forall c', In c' l1 -> ProblemConfig_eqb c c' = false) ->
      _filter_unique_configs configs filter_fn = filter filter_fn configs).
Proof.
  assert (Heq : _filter_unique_configs configs filter_fn
                = _filter_unique_configs (filter filter_fn configs)
                    (fun _ => true)).
  { induction configs as [|c configs IH] using rev_ind; [reflexivity|].
    rewrite filter_unique_configs_snoc, filter_snoc. cbv zeta.
    destruct (filter_fn c); simpl.
    - rewrite filter_unique_configs_snoc. cbv zeta. simpl. now rewrite IH.
    - now rewrite app_nil_r. }
  split; [exact Heq|]. intros _ Hdiff. rewrite Heq.
  apply filter_unique_configs_fixed; [|apply Forall_forall; reflexivity].
  intros l1 c l2 E. apply set_mem_false. exact (Hdiff l1 c l2 E).
Qed.

Lemma filter_unique_configs_filter_first_witness :
  let c1 := ProblemConfig_init
              (mkPriorKnowledge 2 3 2 1 2 None (Some 0.5%float)) 1 in
  let c2 := ProblemConfig_init
              (mkPriorKnowledge 2 3 2 1 2 None (Some 0.5%float)) 2 in
  let f := fun c => seed c =? 2 in
  Forall nan_free [c1; c2; c1]
  /\ (forall l1 c l2, filter f [c1; c2; c1] = l1 ++ c :: l2 ->
        forall c', In c' l1 -> ProblemConfig_eqb c c' = false)
  /\ _filter_unique_configs [c1; c2; c1] f = [c2].
Proof.
  intros c1 c2 f.
  assert (Hn : Forall nan_free [c1; c2; c1])
    by (repeat constructor; reflexivity).
  assert (H : forall l1 c l2, filter f [c1; c2; c1] = l1 ++ c :: l2 ->
                forall c', In c' l1 -> ProblemConfig_eqb c c' = false).
  { intros l1 c l2 Heq c' Hin. destruct l1 as [|x l1]; [destruct Hin|].
    simpl in Heq. injection Heq as _ Heq. now destruct l1. }
  split; [exact Hn|]. split; [exact H|].
  exact (proj2 (filter_unique_configs_filter_first [c1; c2; c1] f) Hn H).
Defined.

(** X6: a problem id determines its sweep name and its index: two ids built
    from names without [SEPARATOR] are equal only when both the names and the
    indices are. *)
Theorem problem_id_injective name1 name2 i j :
  sweep_name_ok name1 -> sweep_name_ok name2 ->
  (problem_id name1 i = problem_id name2 j <-> name1 = name2 /\ i = j).
Proof.
  intros H1 H2. split; [now apply problem_id_inj_name|].
  now intros [-> ->].
Qed.

Lemma problem_id_injective_witness :
  sweep_name_ok "regression" /\ sweep_name_ok "regression_test"
  /\ (problem_id "regression" 1 = problem_id "regression_test" 1
      <-> "regression"%string = "regression_test"%string /\ 1%nat = 1%nat).
Proof.
  split; [reflexivity|]. split; [reflexivity|].
  apply (problem_id_injective "regression" "regression_test" 1 1);
    reflexivity.
Defined.

(** X7: sweeps built by the dictionary comprehension of the sweep functions
    under pairwise different names without [SEPARATOR] never share a key, so
    [_merge_without_overwrite] never raises on them and returns all their
    items in order. *)
Theorem merge_named_sweeps {V : Type}
    (named : list (string * (V -> V) * list V)) :
  NoDup (map (fun nfl => fst (fst nfl)) named) ->
  Forall (fun nfl => sweep_name_ok (fst (fst nfl))) named ->
  _merge_without_overwrite (map named_sweep named)
  = inr (concat (map named_sweep named)).
Proof.
  intros Hnames Hok. apply merge_without_overwrite_ok.
  - apply Forall_map, Forall_forall. intros nfl _.
    apply dict_comprehension_wf, problem_id_inj.
  - intros (i & j & si & sj & k & Hlt & Hi & Hj & Hki & Hkj).
    rewrite nth_error_map in Hi, Hj.
    destruct (nth_error named i) as [x|] eqn:Ex; [|discriminate].
    destruct (nth_error named j) as [y|] eqn:Ey; [|discriminate].
    simpl in Hi, Hj. injection Hi as <-. injection Hj as <-.
    apply named_sweep_keys in Hki as (a & Ha).
    apply named_sweep_keys in Hkj as (b & Hb).
    rewrite Forall_forall in Hok.
    assert (Hx := Hok x (nth_error_In _ _ Ex)).
    assert (Hy := Hok y (nth_error_In _ _ Ey)).
    rewrite Ha in Hb.
    apply (problem_id_inj_name _ _ _ _ Hx Hy) in Hb as [Hname _].
    rewrite NoDup_nth_error in Hnames.
    assert (Hij : i = j).
    { apply Hnames.
      - rewrite length_map. apply nth_error_Some. congruence.
      - rewrite !nth_error_map, Ex, Ey. simpl. now rewrite Hname. }
    lia.
Qed.

Lemma merge_named_sweeps_witness :
  let named := [("a"%string, (fun v : Z => v), [1; 2]);
                ("b"%string, (fun v : Z => v + 1), [3])] in
  NoDup (map (fun nfl => fst (fst nfl)) named)
  /\ Forall (fun nfl => sweep_name_ok (fst (fst nfl))) named
  /\ _merge_without_overwrite (map named_sweep named)
     = inr (concat (map named_sweep named)).
Proof.
  intro named.
  assert (H1 : NoDup (map (fun nfl => fst (fst nfl)) named)).
  { repeat constructor; simpl; intuition discriminate. }
  assert (H2 : Forall (fun nfl => sweep_name_ok (fst (fst nfl))) named).
  { repeat constructor. }
  split; [exact H1|]. split; [exact H2|].
  exact (merge_named_sweeps named H1 H2).
Defined.

(** X8: merging in stages: merging [s1 ++ s2] is merging [s1] and then
    merging the result, as a first sweep, with [s2]; an error of the first
    stage is the error of the whole. *)
Theorem merge_in_stages {V : Type} (s1 s2 : list (dict V)) :
  Forall dict_wf s1 ->
  _merge_without_overwrite (s1 ++ s2) =
  match _merge_without_overwrite s1 with
  | inl e => inl e
  | inr d1 => _merge_without_overwrite (d1 :: s2)
  end.
Proof.
  intro Hwf. unfold _merge_without_overwrite at 1. rewrite merge_from_app.
  fold (_merge_without_overwrite s1).
  destruct (_merge_without_overwrite s1) as [e|d1] eqn:E; [reflexivity|].
  apply (merge_result_wf s1 d1 Hwf) in E as [_ Hd1].
  unfold _merge_without_overwrite. simpl.
  rewrite (proj2 (keys_intersection_nil d1 [])) by (intros k _ []).
  now rewrite (dict_update_fresh [] d1 Hd1) by (intros k _ []).
Qed.

Lemma merge_in_stages_witness :
  let s1 := [[("a"%string, 1)]; [("b"%string, 2)]] in
  let s2 := [[("c"%string, 3)]] in
  Forall dict_wf s1
  /\ _merge_without_overwrite (s1 ++ s2) =
     match _merge_without_overwrite s1 with
     | inl e => inl e
     | inr d1 => _merge_without_overwrite (d1 :: s2)
     end.
Proof.
  intros s1 s2.
  assert (H : Forall dict_wf s1).
  { repeat constructor; simpl; intros []. }
  split; [exact H | exact (merge_in_stages s1 s2 H)].
Defined.

(** X9: [SETTINGS] is built without error; its keys are the eight tuples of
    problem ids of the module, one after the other in the order of the merged
    sweeps, without repetition; so an id is a key of [SETTINGS] exactly when
    one of the tuples lists it. *)
Theorem settings_keys :
  exists settings,
    SETTINGS = inr settings
    /\ keys settings =
       REGRESSION ++ REGRESSION_TEST ++ ENN_PAPER ++ ENN_PAPER_TEST
       ++ CLASSIFICATION ++ CLASSIFICATION_TEST
       ++ CLASSIFICATION_2D ++ CLASSIFICATION_2D_TEST
    /\ NoDup (keys settings)
    /\ (forall id,
          dict_mem id settings = true <->
          In id REGRESSION \/ In id REGRESSION_TEST \/ In id ENN_PAPER
          \/ In id ENN_PAPER_TEST \/ In id CLASSIFICATION
          \/ In id CLASSIFICATION_TEST \/ In id CLASSIFICATION_2D
          \/ In id CLASSIFICATION_2D_TEST)
    /\ map (@length string)
         [REGRESSION; REGRESSION_TEST; ENN_PAPER; ENN_PAPER_TEST;
          CLASSIFICATION; CLASSIFICATION_TEST;
          CLASSIFICATION_2D; CLASSIFICATION_2D_TEST]
       = [270; 1; 270; 9; 360; 4; 420; 7]%nat.
Proof.
  assert (Hval : SETTINGS = inr (concat component_sweeps))
    by (vm_compute; reflexivity).
  assert (Hkeys : keys (concat component_sweeps) =
       REGRESSION ++ REGRESSION_TEST ++ ENN_PAPER ++ ENN_PAPER_TEST
       ++ CLASSIFICATION ++ CLASSIFICATION_TEST
       ++ CLASSIFICATION_2D ++ CLASSIFICATION_2D_TEST)
    by (vm_compute; reflexivity).
  exists (concat component_sweeps).
  split; [exact Hval|]. split; [exact Hkeys|]. split; [|split].
  - exact (proj2 (merge_result_wf component_sweeps _ component_sweeps_wf
                    component_sweeps_merged)).
  - exact (dict_mem_eight _ _ _ _ _ _ _ _ _ Hkeys).
  - vm_compute. reflexivity.
Qed.

(** X10: [meta_data] raises exactly when [dataclasses.asdict] does, that
    is when the prior knowledge, the logit constructor or the test
    distribution cannot be copied, and then with that exception, the first
    in the order of the fields; its own [pop] always finds
    ['prior_knowledge'].  Otherwise the result has no repeated key, its keys
    are the other seven fields of the config together with the fields of the
    prior knowledge, and ['prior_knowledge'] itself is a key only if the
    prior knowledge has a field of that name. *)
Theorem meta_data_raises_as_asdict
    (deepcopy_LogitCtor : LogitCtor -> exn + LogitCtor)
    (deepcopy_TestDistCtor : TestDistCtor -> exn + TestDistCtor)
    (PriorKnowledge_asdict : PriorKnowledge -> exn + dict PyValue)
    (self : ProblemConfig) :
  let result :=
    meta_data deepcopy_LogitCtor deepcopy_TestDistCtor PriorKnowledge_asdict
      self in
  let logit_ctor_copy :=
    match logit_ctor self with
    | None => inr PyNone
    | Some l =>
        match deepcopy_LogitCtor l with
        | inl e => inl e
        | inr l' => inr (PyLogitCtor l')
        end
    end in
  match PriorKnowledge_asdict (prior_knowledge self),
        logit_ctor_copy,
        deepcopy_TestDistCtor (test_distribution self) with
  | inl e, _, _ => result = inl e
  | inr _, inl e, _ => result = inl e
  | inr _, inr _, inl e => result = inl e
  | inr pk, inr _, inr _ =>
      exists meta,
        result = inr meta
        /\ dict_wf meta
        /\ (forall k,
              In k (keys meta) <->
              In k ["seed"; "logit_ctor"; "test_distribution";
                    "num_test_seeds"; "num_enn_samples"; "num_test_cache";
                    "epistemic_only"]%string
              \/ In k (keys pk))
        /\ (dict_get "prior_knowledge" meta = None <->
            ~ In "prior_knowledge"%string (keys pk))
  end.
Proof.
  intros result logit_ctor_copy.
  assert (Hlc : deepcopy_logit_ctor deepcopy_LogitCtor (logit_ctor self)
                = logit_ctor_copy).
  { unfold deepcopy_logit_ctor, logit_ctor_copy, bind.
    destruct (logit_ctor self) as [l|]; [|reflexivity].
    now destruct (deepcopy_LogitCtor l). }
  clearbody logit_ctor_copy.
  destruct (PriorKnowledge_asdict (prior_knowledge self)) as [e|pk] eqn:Hpk.
  { unfold result, meta_data, ProblemConfig_asdict. now rewrite Hpk. }
  destruct logit_ctor_copy as [e|lc].
  { unfold result, meta_data, ProblemConfig_asdict. now rewrite Hpk, Hlc. }
  destruct (deepcopy_TestDistCtor (test_distribution self)) as [e|td] eqn:Htd.
  { unfold result, meta_data, ProblemConfig_asdict.
    now rewrite Hpk, Hlc, Htd. }
  unfold result.
  rewrite (meta_data_ok _ _ _ self pk lc td Hpk Hlc Htd).
  eexists. split; [reflexivity|].
  set (own := [ ("seed"%string, PyInt (seed self)); _; _; _; _; _; _ ]).
  assert (Hk : forall k,
    In k (keys (dict_update own pk)) <->
    In k ["seed"; "logit_ctor"; "test_distribution"; "num_test_seeds";
          "num_enn_samples"; "num_test_cache"; "epistemic_only"]%string
    \/ In k (keys pk)).
  { intro k. now rewrite dict_update_keys_In. }
  split; [|split].
  - apply dict_update_wf. unfold dict_wf, own.
    repeat constructor; simpl; intuition discriminate.
  - exact Hk.
  - rewrite dict_get_None, Hk. split.
    + intros H Hin. apply H. now right.
    + intros H [Hin|Hin]; [|now apply H].
      simpl in Hin. intuition discriminate.
Qed.



(** X12: no two configs of a full sweep are equal (they differ in [tau] or
    in the seed), so on the configs of any full sweep
    [_filter_unique_configs] drops nothing as a duplicate: it returns exactly
    the configs that pass the filter, whatever [num_seed], [initial_seed] and
    the filter are. *)
Theorem filter_unique_configs_on_sweeps (num_seed initial_seed : Z)
    (filter_fn : ProblemConfig -> bool) :
  _filter_unique_configs
    (values (regression_sweep num_seed initial_seed)) filter_fn
  = filter filter_fn (values (regression_sweep num_seed initial_seed))
  /\ _filter_unique_configs
       (values (classification_sweep num_seed initial_seed)) filter_fn
     = filter filter_fn (values (classification_sweep num_seed initial_seed))
  /\ _filter_unique_configs
       (values (classification_2d_sweep num_seed initial_seed)) filter_fn
     = filter filter_fn
         (values (classification_2d_sweep num_seed initial_seed)).
Proof.
  split; [|split]; apply filter_unique_configs_NoDup.
  - rewrite regression_sweep_values.
    destruct (counted_new_keys _ _ _ _
                (regression_loops_counted num_seed initial_seed []))
      as (new & Hsnd & Hnd & _).
    simpl in Hsnd. now rewrite Hsnd.
  - rewrite classification_sweep_values.
    apply (two_runs_keys_NoDup make_polyadic_sampler make_polyadic_sampler
             1 10 initial_seed
             (classification_loops num_seed 1 (initial_seed, [])));
      [discriminate | apply classification_loops_counted
      | apply classification_loops_counted].
  - rewrite classification_2d_sweep_values.
    apply (two_runs_keys_NoDup make_gaussian_sampler make_gaussian_sampler
             1 10 initial_seed
             (classification_2d_loops num_seed 1 (initial_seed, [])));
      [discriminate | apply classification_2d_loops_counted
      | apply classification_2d_loops_counted].
Qed.
